(** * ComfyUI_FL-SongGen: model loader node, path helpers, compatibility shim

    A shallow embedding of [fl_utils/paths.py], [fl_utils/compat.py] and
    [fl_nodes/model_loader.py], followed by the properties of these
    modules.  Python values keep the shape the code gives them: strings are
    [string], integers are [Z], dictionaries and sets are [gmap] and
    [gset], mutable state (the file system, [sys.path], the console, the
    object store) is passed explicitly, and a call that can raise returns a
    [result]. *)

From Stdlib Require Import ZArith String Ascii List Sorted.
From stdpp Require Import gmap strings list fin_maps pretty.

Local Open Scope string_scope.
Local Open Scope list_scope.
Local Open Scope Z_scope.

(** ** Python basics shared by the three modules *)

Module Py.

(** Outcome of a call: a value, or a raised exception of type [E]. *)
Inductive result (E A : Type) : Type :=
| Ok (a : A)
| Raise (e : E).
Arguments Ok {E A} a.
Arguments Raise {E A} e.

(** State-and-exception monad: the state reached so far survives a raise,
    as the effects of a Python call that raised half-way do. *)
Definition SE (S E A : Type) : Type := S -> result E A * S.

Definition ret {S E A} (a : A) : SE S E A := fun s => (Ok a, s).

Definition raise {S E A} (e : E) : SE S E A := fun s => (Raise e, s).

Definition bind {S E A B} (m : SE S E A) (k : A -> SE S E B) : SE S E B :=
  fun s =>
    match m s with
    | (Ok a, s') => k a s'
    | (Raise e, s') => (Raise e, s')
    end.

(** [try: body except e: handler e]. An exception raised by the handler
    itself escapes the statement. *)
Definition try_except {S E A} (body : SE S E A) (handler : E -> SE S E A)
  : SE S E A :=
  fun s =>
    match body s with
    | (Ok a, s') => (Ok a, s')
    | (Raise e, s') => handler e s'
    end.

(** An exception object: its identity, the names of the classes in the
    method resolution order of its class, and what [str(e)] gives. *)
Record exc : Type := mkExc {
  exc_id : nat;
  exc_mro : list string;
  exc_str : string
}.

(** [isinstance(e, cls)], which is what an [except cls] clause tests. *)
Definition isinstance (e : exc) (cls : string) : bool :=
  bool_decide (cls ∈ exc_mro e).

(** [s * n] for a string [s]. *)
Fixpoint str_repeat (s : string) (n : nat) : string :=
  match n with
  | O => ""
  | S n' => s +:+ str_repeat s n'
  end.

(** The line feed character of ["\n"]. *)
Definition nl : string := String (ascii_of_nat 10) EmptyString.

End Py.

Export Py.

Declare Scope py_scope.
Delimit Scope py_scope with py.
Notation "x <- m ;; k" := (bind m (fun x => k))
  (at level 100, m at next level, right associativity) : py_scope.
Notation "m ;;; k" := (bind m (fun _ => k))
  (at level 100, right associativity) : py_scope.

(** ** fl_utils/paths.py *)

Module Paths.

(** *** pathlib and the file system *)

(** A [pathlib.Path] (POSIX flavour): whether it starts at the root, and
    its components. [Path("/")] and [Path(".")] have no components. *)
Record Path : Type := mkPath {
  anchored : bool;
  parts : list string
}.

#[export] Instance Path_eq_dec : EqDecision Path.
Proof. solve_decision. Defined.

#[export] Instance Path_countable : Countable Path :=
  inj_countable'
    (fun p => (anchored p, parts p))
    (fun ap => mkPath (fst ap) (snd ap))
    (fun p => match p with mkPath _ _ => eq_refl end).

(** Cut a string at every occurrence of the character [c]. *)
Fixpoint split_on (c : ascii) (s : string) : list string :=
  match s with
  | EmptyString => [EmptyString]
  | String a s' =>
      if Ascii.eqb a c then EmptyString :: split_on c s'
      else match split_on c s' with
           | [] => [String a EmptyString]
           | w :: ws => String a w :: ws
           end
  end.

Definition starts_with_slash (s : string) : bool :=
  match s with
  | String a _ => Ascii.eqb a "/"%char
  | EmptyString => false
  end.

(** Components that pathlib keeps: empty ones and ["."] are dropped,
    [".."] stays. *)
Definition keep_part (w : string) : bool :=
  negb (String.eqb w "") && negb (String.eqb w ".").

(** [Path(s)]. (A root written with exactly two slashes, which POSIX keeps
    apart, is read as the plain root.) *)
Definition path_of_string (s : string) : Path :=
  mkPath (starts_with_slash s) (List.filter keep_part (split_on "/"%char s)).

(** [str(p)]. *)
Definition path_str (p : Path) : string :=
  if anchored p then "/" +:+ String.concat "/" (parts p)
  else match parts p with
       | [] => "."
       | _ => String.concat "/" (parts p)
       end.

(** [p / s]: an absolute right operand replaces the left one. *)
Definition joinpath (p : Path) (s : string) : Path :=
  let q := path_of_string s in
  if anchored q then q else mkPath (anchored p) (parts p ++ parts q).

(** [p.parent]; the root and ["."] are their own parent. *)
Definition parent (p : Path) : Path :=
  mkPath (anchored p) (removelast (parts p)).

(** [p.name]. *)
Definition name (p : Path) : string := List.last (parts p) "".

(** What a path names on disk. *)
Inductive kind : Type := File | Dir.

#[export] Instance kind_eq_dec : EqDecision kind.
Proof. solve_decision. Defined.

(** The file system: which paths exist, and as what. A path is looked up
    as written (no symbolic links, no resolution of [".."], relative
    paths relative to one fixed working directory). *)
Abbreviation FileSystem := (gmap Path kind).

(** The root and the working directory always exist. *)
Definition kind_of (fs : FileSystem) (p : Path) : option kind :=
  match parts p with
  | [] => Some Dir
  | _ => fs !! p
  end.

(** [p.exists()]. *)
Definition path_exists (fs : FileSystem) (p : Path) : bool :=
  match kind_of fs p with
  | Some _ => true
  | None => false
  end.

(** [p.is_dir()]. *)
Definition is_dir (fs : FileSystem) (p : Path) : bool :=
  match kind_of fs p with
  | Some Dir => true
  | _ => false
  end.

(** The [OSError] subclasses that [mkdir] can raise here, and the
    [ValueError] of [relative_to]. *)
Inductive oserror : Type :=
| FileExistsError (p : Path)
| NotADirectoryError (p : Path)
| FileNotFoundError (p : Path)
| ValueError (p : Path).

(** [mkdir(parents=True, exist_ok=True)], on the reversed components.
    [os.mkdir] reports an existing entry (tolerated when it is a
    directory), a parent that is not a directory, or a missing parent;
    in the last case the parent is created first and the call retried.
    These are the failures that the entries of the disk decide; the
    others (a name too long, a missing permission, a full disk) are not
    in the model: a call that returns in the model may raise on a disk,
    never the other way round. *)
Fixpoint mkdir_rev (a : bool) (rparts : list string) (fs : FileSystem)
  : result oserror FileSystem :=
  let p := mkPath a (rev rparts) in
  match kind_of fs p with
  | Some Dir => Ok fs
  | Some File => Raise (FileExistsError p)
  | None =>
      match rparts with
      | [] => Raise (FileNotFoundError p)
      | _ :: rest =>
          match kind_of fs (mkPath a (rev rest)) with
          | Some Dir => Ok (<[p := Dir]> fs)
          | Some File => Raise (NotADirectoryError p)
          | None =>
              match mkdir_rev a rest fs with
              | Ok fs' => Ok (<[p := Dir]> fs')
              | Raise e => Raise e
              end
          end
      end
  end.

(** [p.mkdir(parents=True, exist_ok=True)] as a stateful call. *)
Definition mkdir (p : Path) : SE FileSystem oserror unit :=
  fun fs =>
    match mkdir_rev (anchored p) (rev (parts p)) fs with
    | Ok fs' => (Ok tt, fs')
    | Raise e => (Raise e, fs)
    end.

(** [p.relative_to(base)]. *)
Fixpoint strip_prefix (base l : list string) : option (list string) :=
  match base, l with
  | [], _ => Some l
  | b :: base', x :: l' =>
      if String.eqb b x then strip_prefix base' l' else None
  | _ :: _, [] => None
  end.

Definition relative_to (p base : Path) : result oserror Path :=
  if Bool.eqb (anchored p) (anchored base) then
    match strip_prefix (parts base) (parts p) with
    | Some l => Ok (mkPath false l)
    | None => Raise (ValueError p)
    end
  else Raise (ValueError p).

(** *** The module's functions *)

Section WithModuleFile.

(** [Path(__file__)] of [fl_utils/paths.py]. *)
Variable module_file : Path.

Definition get_comfyui_root : Path :=
  let current_dir := parent module_file in
  let comfyui_root := parent (parent (parent current_dir)) in
  comfyui_root.

Definition get_package_root : Path := parent (parent module_file).

Definition get_songgen_models_dir : SE FileSystem oserror Path :=
  (let models_dir := joinpath (joinpath get_comfyui_root "models") "songgen" in
   mkdir models_dir ;;;
   ret models_dir)%py.

Definition get_model_variant_dir (variant : string)
  : SE FileSystem oserror Path :=
  (d <- get_songgen_models_dir ;;
   let path := joinpath d variant in
   mkdir path ;;;
   ret path)%py.

Definition get_checkpoints_dir : SE FileSystem oserror Path :=
  (d <- get_songgen_models_dir ;;
   ret (joinpath d "ckpt"))%py.

Definition get_auto_prompts_path : SE FileSystem oserror Path :=
  (d <- get_checkpoints_dir ;;
   ret (joinpath d "new_prompt.pt"))%py.

Definition get_demucs_dir : SE FileSystem oserror Path :=
  (d <- get_checkpoints_dir ;;
   ret (joinpath d "demucs"))%py.

Definition get_bundled_codeclm_path : Path :=
  joinpath get_package_root "codeclm".

Definition get_bundled_third_party_path : Path :=
  joinpath get_package_root "third_party".

Definition paths_to_add : list string :=
  let package_root := get_package_root in
  [ path_str package_root;
    path_str (joinpath package_root "codeclm");
    path_str (joinpath (joinpath (joinpath package_root "codeclm")
                                 "tokenizer") "Flow1dVAE");
    path_str (joinpath package_root "third_party") ].

(** One turn of the loop of [setup_bundled_imports]:
    [sys.path.insert(0, path)] when the path is new and exists. *)
Definition add_path (fs : FileSystem) (sys_path : list string)
           (path : string) : list string :=
  if negb (bool_decide (path ∈ sys_path))
     && path_exists fs (path_of_string path)
  then path :: sys_path
  else sys_path.

(** [setup_bundled_imports()], as a transformer of [sys.path]. *)
Definition setup_bundled_imports (fs : FileSystem)
           (sys_path : list string) : list string :=
  fold_left (add_path fs) paths_to_add sys_path.

(** The dictionary the three checks return:
    [{'exists': ..., 'missing': ..., 'path': ...}]. *)
Record check_result : Type := mkCheck {
  cr_exists : bool;
  cr_missing : list string;
  cr_path : Path
}.

Definition required_dirs : list Path :=
  let package_root := get_package_root in
  [ joinpath package_root "codeclm";
    joinpath (joinpath package_root "codeclm") "models";
    joinpath (joinpath package_root "codeclm") "tokenizer";
    joinpath package_root "third_party";
    joinpath (joinpath package_root "third_party") "stable_audio_tools";
    joinpath (joinpath package_root "third_party") "demucs" ].

(** The loop of [check_bundled_files]; [relative_to] can raise. *)
Fixpoint bundled_missing (fs : FileSystem) (ds : list Path)
         (missing : list string) : result oserror (list string) :=
  match ds with
  | [] => Ok missing
  | d :: ds' =>
      if negb (path_exists fs d) then
        match relative_to d get_package_root with
        | Ok r => bundled_missing fs ds' (missing ++ [path_str r])
        | Raise e => Raise e
        end
      else bundled_missing fs ds' missing
  end.

Definition check_bundled_files : SE FileSystem oserror check_result :=
  fun fs =>
    let package_root := get_package_root in
    match bundled_missing fs required_dirs [] with
    | Ok missing =>
        (Ok (mkCheck (Nat.eqb (length missing) 0) missing package_root), fs)
    | Raise e => (Raise e, fs)
    end.

(** The loops of the other two checks: [missing.append(label x)] for
    every [x] whose path does not exist. *)
Definition append_if_missing {X} (fs : FileSystem) (path_of : X -> Path)
           (label : X -> string) (missing : list string) (x : X)
  : list string :=
  if negb (path_exists fs (path_of x)) then missing ++ [label x]
  else missing.

Definition required_items (ckpt_dir : Path) : list Path :=
  [ joinpath ckpt_dir "model_1rvq";
    joinpath ckpt_dir "model_septoken";
    joinpath ckpt_dir "vae" ].

Definition check_checkpoint_files : SE FileSystem oserror check_result :=
  (ckpt_dir <- get_checkpoints_dir ;;
   fun fs =>
     let missing :=
       fold_left (append_if_missing fs (fun item => item) name)
                 (required_items ckpt_dir) [] in
     (Ok (mkCheck (Nat.eqb (length missing) 0) missing ckpt_dir), fs))%py.

Definition required_files : list string := ["config.yaml"; "model.pt"].

Definition check_model_files (variant : string)
  : SE FileSystem oserror check_result :=
  (variant_dir <- get_model_variant_dir variant ;;
   fun fs =>
     let missing :=
       fold_left (append_if_missing fs (joinpath variant_dir) (fun f => f))
                 required_files [] in
     (Ok (mkCheck (Nat.eqb (length missing) 0) missing variant_dir), fs))%py.

(** Legacy aliases. *)
Definition get_runtime_dir : SE FileSystem oserror Path := get_checkpoints_dir.

Definition setup_runtime_imports (fs : FileSystem) (sys_path : list string)
  : list string :=
  setup_bundled_imports fs sys_path.

Definition check_runtime_files : SE FileSystem oserror check_result :=
  check_bundled_files.

Definition get_songgen_repo_path : Path := get_package_root.

End WithModuleFile.

(** *** Vocabulary of the statements *)

(** No regular file sits at the path or above it. *)
Fixpoint no_file_on_rev (fs : FileSystem) (a : bool) (r : list string)
  : bool :=
  match kind_of fs (mkPath a (rev r)) with
  | Some File => false
  | _ => match r with
         | [] => true
         | _ :: rest => no_file_on_rev fs a rest
         end
  end.

Definition no_file_on (fs : FileSystem) (p : Path) : bool :=
  no_file_on_rev fs (anchored p) (rev (parts p)).

(** [ComfyUI/models/songgen]. *)
Definition songgen_dir (module_file : Path) : Path :=
  joinpath (joinpath (get_comfyui_root module_file) "models") "songgen".

(** Those of [names] that do not exist under [dir]. *)
Definition absent (fs : FileSystem) (dir : Path) (names : list string)
  : list string :=
  List.filter (fun n => negb (path_exists fs (joinpath dir n))) names.

(** The bundled directories, relative to the package root. *)
Definition required_dir_names : list string :=
  [ "codeclm"; "codeclm/models"; "codeclm/tokenizer";
    "third_party"; "third_party/stable_audio_tools"; "third_party/demucs" ].

(** Every entry has a directory as its parent, as on a real disk. *)
Definition parent_closed (fs : FileSystem) : Prop :=
  forall p, is_Some (fs !! p) -> is_dir fs (parent p) = true.

(** Paths are looked up as they are written, where a disk resolves a
    [".."] component first. What is said about the entries of a disk is
    therefore said for paths without such a component. *)
Definition no_dotdot (p : Path) : bool :=
  forallb (fun w => negb (String.eqb w "..")) (parts p).

(** [parent_closed], checked entry by entry. *)
Definition parent_closed_b (fs : FileSystem) : bool :=
  forallb (fun pk => is_dir fs (parent (fst pk))) (map_to_list fs).

(** A component as pathlib produces it: not empty, not ["."], without a
    slash. *)
Fixpoint has_slash (w : string) : bool :=
  match w with
  | EmptyString => false
  | String a w' => Ascii.eqb a "/"%char || has_slash w'
  end.

Definition clean_part (w : string) : bool :=
  keep_part w && negb (has_slash w).

Definition clean_path (p : Path) : Prop :=
  Forall (fun w => clean_part w = true) (parts p).

(** The four directories whose strings [setup_bundled_imports] offers to
    [sys.path], in the order of the source. *)
Definition bundled_dirs (module_file : Path) : list Path :=
  let package_root := get_package_root module_file in
  [ package_root;
    joinpath package_root "codeclm";
    joinpath (joinpath (joinpath package_root "codeclm") "tokenizer") "Flow1dVAE";
    joinpath package_root "third_party" ].

(** *** Sample installations *)

(** Where [paths.py] sits in a usual installation. *)
Definition sample_module_file : Path :=
  path_of_string "/ComfyUI/custom_nodes/ComfyUI_FL-SongGen/fl_utils/paths.py".

(** A disk holding the installation and nothing else. *)
Definition sample_fs : FileSystem :=
  list_to_map
    [ (path_of_string "/ComfyUI", Dir);
      (path_of_string "/ComfyUI/custom_nodes", Dir);
      (path_of_string "/ComfyUI/custom_nodes/ComfyUI_FL-SongGen", Dir);
      (path_of_string "/ComfyUI/custom_nodes/ComfyUI_FL-SongGen/fl_utils", Dir);
      (path_of_string "/ComfyUI/custom_nodes/ComfyUI_FL-SongGen/fl_utils/paths.py", File);
      (path_of_string "/ComfyUI/custom_nodes/ComfyUI_FL-SongGen/codeclm", Dir);
      (path_of_string "/ComfyUI/models", Dir) ].

(** The same disk after somebody saved a regular file under the name of a
    variant directory. *)
Definition sample_fs_variant_is_file : FileSystem :=
  <[path_of_string "/ComfyUI/models/songgen/songgeneration_base" := File]>
    (<[path_of_string "/ComfyUI/models/songgen" := Dir]> sample_fs).

(** A disk on which [models] is a regular file. *)
Definition sample_fs_models_is_file : FileSystem :=
  <[path_of_string "/ComfyUI/models" := File]>
    (<[path_of_string "/ComfyUI" := Dir]> ∅).

End Paths.


(** ** fl_utils/compat.py *)

Module Compat.

(** What torch raises here: an index outside a dimension, or a negative
    dimension given to [torch.ones]. *)
Inductive torch_error : Type :=
| IndexError (index size : Z)
| RuntimeError.

(** [torch.ones(n_heads, head_dim)]: a matrix, one row per head. A
    negative size raises; so does, in torch, a size beyond what it can
    allocate, which is not in the model. *)
Definition ones (n_heads head_dim : Z) : result torch_error (list (list Z)) :=
  if (n_heads <? 0) || (head_dim <? 0) then Raise RuntimeError
  else Ok (replicate (Z.to_nat n_heads) (replicate (Z.to_nat head_dim) 1)).

(** [mask[head] = 0]: the whole row becomes zero. An index in
    [-n, n) counts from the end when negative; any other index raises. *)
Definition set_row_zero (mask : list (list Z)) (head : Z)
  : result torch_error (list (list Z)) :=
  let n := Z.of_nat (length mask) in
  if (- n <=? head) && (head <? n) then
    let i := Z.to_nat (if head <? 0 then head + n else head) in
    Ok (alter (fun row => (fun _ => 0) <$> row) i mask)
  else Raise (IndexError head n).

(** [for head in heads_to_prune: mask[head] = 0], the heads taken in the
    order in which the set hands them out. *)
Fixpoint zero_rows (mask : list (list Z)) (heads : list Z)
  : result torch_error (list (list Z)) :=
  match heads with
  | [] => Ok mask
  | head :: rest =>
      match set_row_zero mask head with
      | Ok mask' => zero_rows mask' rest
      | Raise e => Raise e
      end
  end.

(** [mask.view(-1).contiguous().eq(1)]. *)
Definition flat_eq_one (mask : list (list Z)) : list bool :=
  (fun x => x =? 1) <$> concat mask.

(** [torch.arange(len(mask))[mask].long()], counting from [i]. *)
Fixpoint select_from (i : Z) (mask : list bool) : list Z :=
  match mask with
  | [] => []
  | b :: rest =>
      if b then i :: select_from (i + 1) rest
      else select_from (i + 1) rest
  end.

(** The fallback defined when the import fails. *)
Definition find_pruneable_heads_and_indices
  (heads : list Z) (n_heads head_dim : Z) (already_pruned_heads : gset Z)
  : result torch_error (gset Z * list Z) :=
  match ones n_heads head_dim with
  | Raise e => Raise e
  | Ok mask =>
      let heads_to_prune : gset Z := list_to_set heads ∖ already_pruned_heads in
      match zero_rows mask (elements heads_to_prune) with
      | Raise e => Raise e
      | Ok mask' =>
          let index := select_from 0 (flat_eq_one mask') in
          Ok (heads_to_prune, index)
      end
  end.

(** The type of the function handed out. *)
Definition pruner : Type :=
  list Z -> Z -> Z -> gset Z -> result torch_error (gset Z * list Z).

(** [get_find_pruneable_heads_and_indices()], given what
    [from transformers.pytorch_utils import find_pruneable_heads_and_indices]
    does: it yields the library function or raises. Only [ImportError]
    is caught. *)
Definition get_find_pruneable_heads_and_indices
  (import_result : result exc pruner) : result exc pruner :=
  match import_result with
  | Ok f => Ok f
  | Raise e =>
      if isinstance e "ImportError" then Ok find_pruneable_heads_and_indices
      else Raise e
  end.

(** *** Vocabulary of the statements *)

(** The mask once the rows of the heads in [pruned] are zero. *)
Definition mask_rows (head_dim : Z) (pruned : gset Z) (n_heads : Z)
  : list (list Z) :=
  (fun h => replicate (Z.to_nat head_dim)
              (if bool_decide (h ∈ pruned) then 0 else 1))
    <$> seqZ 0 n_heads.

(** The flat positions [h * head_dim, ..., h * head_dim + head_dim - 1] of
    the heads [h] in [0, n_heads) that are not in [heads_to_prune], head
    after head. *)
Definition kept_positions (n_heads head_dim : Z) (heads_to_prune : gset Z)
  : list Z :=
  concat ((fun h => seqZ (h * head_dim) head_dim)
            <$> filter (fun h => h ∉ heads_to_prune) (seqZ 0 n_heads)).

(** A library function standing for the one of [transformers]. *)
Definition sample_library_pruner : pruner :=
  fun heads _ _ already_pruned_heads =>
    Ok (list_to_set heads ∖ already_pruned_heads, []).

Definition sample_import_error : exc :=
  mkExc 1 ["ImportError"; "Exception"; "BaseException"; "object"]
        "cannot import name 'find_pruneable_heads_and_indices'".

End Compat.

(** ** fl_nodes/model_loader.py *)

Module ModelLoader.

(** *** Values, the object store and the outside world *)

Abbreviation loc := nat.

Inductive pyval : Type :=
| VNone
| VBool (b : bool)
| VInt (z : Z)
| VStr (s : string)
| VRef (l : loc).

(** Dictionaries live in a store and are passed by reference, so that a
    dictionary changed in place is changed for every holder of it. *)
Abbreviation dict := (gmap string pyval).
Abbreviation heap := (gmap loc (gmap string pyval)).

(** A number as the node sees it: an [int], or a [float] known through its
    two renderings [str(x)] and [format(x, ".1f")]. *)
Inductive pynum : Type :=
| NInt (z : Z)
| NFloat (repr fixed1 : string).

Definition num_str (x : pynum) : string :=
  match x with
  | NInt z => pretty z
  | NFloat repr _ => repr
  end.

(** [format(x, ".1f")]. An [int] is shown through the float nearest to
    it: digit by digit up to [2 ^ 53] in absolute value, which is as far
    as this definition is meant. *)
Definition num_format_1f (x : pynum) : string :=
  match x with
  | NInt z => pretty z +:+ ".0"
  | NFloat _ fixed1 => fixed1
  end.

(** The entries of a variant's metadata that the node reads. *)
Record variant_info : Type := mkVariantInfo {
  description : string;
  max_duration : Z;
  languages : list string;
  vram_low : pynum;
  vram_normal : pynum
}.

(** Everything the node does to the outside, in order. *)
Inductive event : Type :=
| Call_get_recommended_memory_mode (variant : string)
| Call_get_available_vram_gb
| Call_get_variant_info (variant : string)
| Call_load_model (variant : string) (low_mem use_flash_attn force_reload : bool)
| Console (line : string)
| ProgressBar_init (total : Z)
| ProgressBar_update_absolute (value : pyval).

#[export] Instance pyval_eq_dec : EqDecision pyval.
Proof. solve_decision. Defined.

#[export] Instance event_eq_dec : EqDecision event.
Proof. solve_decision. Defined.

Record world : Type := mkWorld {
  trace : list event;
  store : heap
}.

(** What one call of the collaborator [load_model] does: the calls
    [progress_callback(current, total)] it makes, the store it leaves
    behind, and the dictionary it returns (its reference and its entries at
    that moment) or the exception it raises. *)
Record load_outcome : Type := mkOutcome {
  lo_progress : list (pyval * pyval);
  lo_store : heap;
  lo_result : result exc (loc * gmap string pyval)
}.

(** The functions of [model_manager] the node uses. Their code is not part
    of this module; each is given by what it answers. *)
Record collaborators : Type := mkCollaborators {
  get_recommended_memory_mode : string -> result exc string;
  get_available_vram_gb : result exc pynum;
  get_variant_info : string -> result exc variant_info;
  load_model : string -> bool -> bool -> bool -> heap -> load_outcome
}.

Abbreviation M := (SE world exc).

Definition emit (ev : event) : M unit :=
  fun w => (Ok tt, mkWorld (trace w ++ [ev]) (store w)).

(** [print(line)]. *)
Definition print (line : string) : M unit := emit (Console line).

Definition answer {A} (r : result exc A) : M A := fun w => (r, w).

(** [for x in l: f(x)]. *)
Fixpoint for_each {A} (f : A -> M unit) (l : list A) : M unit :=
  match l with
  | [] => ret tt
  | x :: rest => (f x ;;; for_each f rest)%py
  end.

(** [d[key] = v] on the dictionary that [l] refers to. *)
Definition dict_setitem (l : loc) (key : string) (v : pyval) : M unit :=
  fun w => (Ok tt, mkWorld (trace w) (alter (fun d => <[key := v]> d) l (store w))).

(** *** The node *)

Definition MEMORY_MODES : list string := ["auto"; "normal"; "low"; "ultra"].

Definition RETURN_TYPES : list string := ["SONGGEN_MODEL"].
Definition RETURN_NAMES : list string := ["model"].
Definition FUNCTION : string := "load_model".
Definition CATEGORY : string := "FL Song Gen".

Section WithCollaborators.

Variable C : collaborators.

(** The call [load_model(variant=, low_mem=, use_flash_attn=,
    force_reload=, progress_callback=)]: the collaborator calls the
    callback as often as it likes, then returns or raises. *)
Definition call_load_model (variant : string)
  (low_mem use_flash_attn force_reload : bool)
  (progress_callback : pyval -> pyval -> M unit) : M loc :=
  (emit (Call_load_model variant low_mem use_flash_attn force_reload) ;;;
   fun w =>
     let o := load_model C variant low_mem use_flash_attn force_reload (store w) in
     match for_each (fun ct => progress_callback (fst ct) (snd ct))
                    (lo_progress o) w with
     | (Raise e, w') => (Raise e, w')
     | (Ok _, w') =>
         match lo_result o with
         | Ok (l, d) => (Ok l, mkWorld (trace w') (<[l := d]> (lo_store o)))
         | Raise e => (Raise e, mkWorld (trace w') (lo_store o))
         end
     end)%py.

(** Lines 101-107: resolve the memory mode. *)
Definition resolve_memory_mode (model_variant memory_mode : string) : M string :=
  if String.eqb memory_mode "auto" then
    (emit (Call_get_recommended_memory_mode model_variant) ;;;
     resolved_mode <- answer (get_recommended_memory_mode C model_variant) ;;
     emit Call_get_available_vram_gb ;;;
     available_vram <- answer (get_available_vram_gb C) ;;
     print ("[FL SongGen] Auto-detected memory mode: " +:+ resolved_mode
            +:+ " (available VRAM: " +:+ num_format_1f available_vram +:+ "GB)") ;;;
     ret resolved_mode)%py
  else ret memory_mode.

(** Lines 109-111: map the mode to flags. *)
Definition low_mem (resolved_mode : string) : bool :=
  bool_decide (resolved_mode ∈ ["low"; "ultra_low_mem"; "low_mem"]).

Definition ultra_low_mem (resolved_mode : string) : bool :=
  bool_decide (resolved_mode ∈ ["ultra"; "ultra_low_mem"]).

Definition rule : string := str_repeat "=" 60.

(** Lines 115-129: the banner. *)
Definition log_banner (model_variant resolved_mode : string)
  (info : variant_info) : M unit :=
  (print (nl +:+ rule) ;;;
   print "[FL SongGen] Loading Model" ;;;
   print rule ;;;
   print ("Variant: " +:+ model_variant) ;;;
   print ("Description: " +:+ description info) ;;;
   print ("Max Duration: " +:+ pretty (max_duration info) +:+ "s ("
          +:+ pretty (max_duration info / 60) +:+ "m "
          +:+ pretty (max_duration info mod 60) +:+ "s)") ;;;
   print ("Languages: " +:+ String.concat ", " (languages info)) ;;;
   print ("Memory Mode: " +:+ resolved_mode) ;;;
   (if ultra_low_mem resolved_mode then
      print "VRAM Required: ~6GB (ultra low memory mode)"
    else if low_mem resolved_mode then
      print ("VRAM Required: " +:+ num_str (vram_low info) +:+ "GB")
    else
      print ("VRAM Required: " +:+ num_str (vram_normal info) +:+ "GB")) ;;;
   print (rule +:+ nl))%py.

(** Lines 135-136: the callback closes over the progress bar. *)
Definition progress_callback (current total : pyval) : M unit :=
  emit (ProgressBar_update_absolute current).

(** Lines 152-165: the two [except] clauses, tried in order; an exception
    that matches neither leaves the [try] statement as it is. *)
Definition on_exception (model_variant : string) (e : exc)
  : M (list pyval) :=
  if isinstance e "FileNotFoundError" then
    (print (nl +:+ rule) ;;;
     print "[FL SongGen] ERROR: Model files not found!" ;;;
     print rule ;;;
     print "Please download the model from HuggingFace:" ;;;
     print "https://huggingface.co/aslp-lab/SongGeneration" ;;;
     print (nl +:+ "Expected location: ComfyUI/models/songgen/"
            +:+ model_variant +:+ "/") ;;;
     print "Required files: config.yaml, model.pt" ;;;
     print (rule +:+ nl) ;;;
     raise e)%py
  else if isinstance e "Exception" then
    (print ("[FL SongGen] ERROR loading model: " +:+ exc_str e) ;;;
     raise e)%py
  else raise e.

(** Lines 131-150: the body of the [try]. The result is the one-element
    tuple [(model_info,)]. *)
Definition try_body (model_variant resolved_mode : string)
  (force_reload : bool) : M (list pyval) :=
  (emit (ProgressBar_init 4) ;;;
   model_info <- call_load_model model_variant
                   (low_mem resolved_mode || ultra_low_mem resolved_mode)
                   false force_reload progress_callback ;;
   dict_setitem model_info "ultra_low_mem" (VBool (ultra_low_mem resolved_mode)) ;;;
   print "[FL SongGen] Model loaded successfully!" ;;;
   ret [VRef model_info])%py.

(** [FL_SongGen_ModelLoader.load_model]. *)
Definition FL_SongGen_ModelLoader_load_model
  (model_variant memory_mode : string) (force_reload : bool)
  : M (list pyval) :=
  (resolved_mode <- resolve_memory_mode model_variant memory_mode ;;
   emit (Call_get_variant_info model_variant) ;;;
   info <- answer (get_variant_info C model_variant) ;;
   log_banner model_variant resolved_mode info ;;;
   try_except (try_body model_variant resolved_mode force_reload)
              (on_exception model_variant))%py.

(** The call as the host makes it: an argument left out takes its default,
    [memory_mode="auto"] and [force_reload=False]. *)
Definition FL_SongGen_ModelLoader_load_model_call
  (model_variant : string) (memory_mode : option string)
  (force_reload : option bool) : M (list pyval) :=
  FL_SongGen_ModelLoader_load_model model_variant
    (default "auto" memory_mode) (default false force_reload).

End WithCollaborators.

(** *** Vocabulary of the statements *)

(** Everything up to the [try]: the mode is resolved, the metadata fetched
    and the banner printed. A run reaches the loading step when this part
    returns. *)
Definition prelude (C : collaborators) (model_variant memory_mode : string)
  : M string :=
  (resolved_mode <- resolve_memory_mode C model_variant memory_mode ;;
   emit (Call_get_variant_info model_variant) ;;;
   info <- answer (get_variant_info C model_variant) ;;
   log_banner model_variant resolved_mode info ;;;
   ret resolved_mode)%py.

(** The lines of the banner. *)
Definition banner_lines (model_variant resolved_mode : string)
  (info : variant_info) : list string :=
  [ nl +:+ rule;
    "[FL SongGen] Loading Model";
    rule;
    "Variant: " +:+ model_variant;
    "Description: " +:+ description info;
    "Max Duration: " +:+ pretty (max_duration info) +:+ "s ("
      +:+ pretty (max_duration info / 60) +:+ "m "
      +:+ pretty (max_duration info mod 60) +:+ "s)";
    "Languages: " +:+ String.concat ", " (languages info);
    "Memory Mode: " +:+ resolved_mode;
    (if ultra_low_mem resolved_mode then
       "VRAM Required: ~6GB (ultra low memory mode)"
     else if low_mem resolved_mode then
       "VRAM Required: " +:+ num_str (vram_low info) +:+ "GB"
     else "VRAM Required: " +:+ num_str (vram_normal info) +:+ "GB");
    rule +:+ nl ].

(** The hint printed for a missing file. *)
Definition hint_lines (model_variant : string) : list string :=
  [ nl +:+ rule;
    "[FL SongGen] ERROR: Model files not found!";
    rule;
    "Please download the model from HuggingFace:";
    "https://huggingface.co/aslp-lab/SongGeneration";
    nl +:+ "Expected location: ComfyUI/models/songgen/" +:+ model_variant +:+ "/";
    "Required files: config.yaml, model.pt";
    rule +:+ nl ].

(** What the [except] clauses print for [e]. *)
Definition error_lines (model_variant : string) (e : exc) : list string :=
  if isinstance e "FileNotFoundError" then hint_lines model_variant
  else if isinstance e "Exception" then
    ["[FL SongGen] ERROR loading model: " +:+ exc_str e]
  else [].

(** The calls of [ProgressBar.update_absolute] that the callback makes for
    the collaborator's calls of it. *)
Definition progress_updates (calls : list (pyval * pyval)) : list event :=
  (fun ct => ProgressBar_update_absolute (fst ct)) <$> calls.

(** What the console shows after the events [t]. *)
Definition console_lines (t : list event) : list string :=
  omap (fun ev => match ev with Console line => Some line | _ => None end) t.

Definition is_recommended_call (ev : event) : bool :=
  match ev with
  | Call_get_recommended_memory_mode _ => true
  | _ => false
  end.

Definition is_load_call (ev : event) : bool :=
  match ev with
  | Call_load_model _ _ _ _ => true
  | _ => false
  end.

Definition is_progress_event (ev : event) : bool :=
  match ev with
  | ProgressBar_init _ | ProgressBar_update_absolute _ => true
  | _ => false
  end.

(** The line of the automatic detection shows an [int] digit by digit;
    [format(x, ".1f")] does so for the integers a float holds exactly. *)
Definition vram_formats_exactly (C : collaborators) : Prop :=
  forall z, get_available_vram_gb C = Ok (NInt z) -> Z.abs z <= 2 ^ 53.

(** *** Sample collaborators *)

Definition sample_info : variant_info :=
  mkVariantInfo "Base model, English and Chinese" 270 ["en"; "zh"]
                (NInt 10) (NInt 16).

Definition sample_model_info : gmap string pyval :=
  <["variant" := VStr "songgeneration_base_new"]> (<["model" := VRef 7]> ∅).

Definition sample_progress : list (pyval * pyval) :=
  [ (VInt 1, VInt 4); (VInt 2, VInt 4); (VInt 3, VInt 4); (VInt 4, VInt 4) ].

(** Collaborators on a machine with little memory; [loaded] is what
    [load_model] ends with. *)
Definition sample_collaborators (loaded : result exc (loc * gmap string pyval))
  : collaborators :=
  mkCollaborators
    (fun _ => Ok "ultra")
    (Ok (NFloat "7.75" "7.8"))
    (fun _ => Ok sample_info)
    (fun _ _ _ _ h => mkOutcome sample_progress h loaded).

Definition sample_file_not_found : exc :=
  mkExc 11 ["FileNotFoundError"; "OSError"; "Exception"; "BaseException"; "object"]
        "[Errno 2] No such file or directory: 'model.pt'".

Definition sample_runtime_error : exc :=
  mkExc 12 ["RuntimeError"; "Exception"; "BaseException"; "object"]
        "CUDA out of memory".

Definition sample_keyboard_interrupt : exc :=
  mkExc 13 ["KeyboardInterrupt"; "BaseException"; "object"] "".

Definition empty_world : world := mkWorld [] ∅.

Definition sample_key_error : exc :=
  mkExc 14 ["KeyError"; "LookupError"; "Exception"; "BaseException"; "object"]
        "'songgeneration_unknown'".

(** Collaborators that do not know the variant asked for. *)
Definition unknown_variant_collaborators : collaborators :=
  mkCollaborators
    (fun _ => Ok "normal")
    (Ok (NInt 24))
    (fun _ => Raise sample_key_error)
    (fun _ _ _ _ h => mkOutcome [] h (Raise sample_runtime_error)).

End ModelLoader.

(** * Properties *)

(** ** The file system and [mkdir] *)

Section FileSystemFacts.

Import Paths.

Implicit Types (fs : gmap Path kind) (p q : Path) (r : list string).

Lemma kind_of_insert_same fs p : kind_of (<[p := Dir]> fs) p = Some Dir.
Proof.
  unfold kind_of. destruct (parts p); [done|]. apply lookup_insert_eq.
Qed.

Lemma kind_of_insert_other fs p q k :
  p ≠ q -> kind_of (<[p := k]> fs) q = kind_of fs q.
Proof.
  intros Hne. unfold kind_of. destruct (parts q); [done|].
  by apply lookup_insert_ne.
Qed.

Lemma kind_of_insert_absent fs p q k :
  kind_of fs p = None -> kind_of fs q = Some k ->
  kind_of (<[p := Dir]> fs) q = Some k.
Proof.
  intros Hp Hq. destruct (decide (p = q)) as [->|Hne]; [congruence|].
  by rewrite kind_of_insert_other.
Qed.

(** One unfolding of [mkdir_rev], as an equation. *)
Lemma mkdir_rev_unfold a r fs :
  mkdir_rev a r fs =
  match kind_of fs (mkPath a (rev r)) with
  | Some Dir => Ok fs
  | Some File => Raise (FileExistsError (mkPath a (rev r)))
  | None =>
      match r with
      | [] => Raise (FileNotFoundError (mkPath a (rev r)))
      | _ :: rest =>
          match kind_of fs (mkPath a (rev rest)) with
          | Some Dir => Ok (<[mkPath a (rev r) := Dir]> fs)
          | Some File => Raise (NotADirectoryError (mkPath a (rev r)))
          | None =>
              match mkdir_rev a rest fs with
              | Ok fs' => Ok (<[mkPath a (rev r) := Dir]> fs')
              | Raise e => Raise e
              end
          end
      end
  end.
Proof. destruct r; reflexivity. Qed.

(** After a successful [mkdir] the path is a directory. *)
Lemma mkdir_rev_is_dir a r fs fs' :
  mkdir_rev a r fs = Ok fs' -> kind_of fs' (mkPath a (rev r)) = Some Dir.
Proof.
  rewrite mkdir_rev_unfold.
  destruct (kind_of fs (mkPath a (rev r))) as [[|]|] eqn:Hk.
  - discriminate.
  - by intros [= <-].
  - destruct r as [|x rest]; [discriminate|].
    destruct (kind_of fs (mkPath a (rev rest))) as [[|]|].
    + discriminate.
    + intros [= <-]. apply kind_of_insert_same.
    + destruct (mkdir_rev a rest fs); [|discriminate].
      intros [= <-]. apply kind_of_insert_same.
Qed.

(** [mkdir] keeps every entry that was there. *)
Lemma mkdir_rev_keeps a r : forall fs fs' q k,
  mkdir_rev a r fs = Ok fs' -> kind_of fs q = Some k -> kind_of fs' q = Some k.
Proof.
  induction r as [|x rest IH]; intros fs fs' q k; rewrite mkdir_rev_unfold.
  - destruct (kind_of fs _) as [[|]|]; try discriminate. by intros [= <-].
  - destruct (kind_of fs (mkPath a (rev (x :: rest)))) as [[|]|] eqn:Hk.
    + discriminate.
    + by intros [= <-].
    + destruct (kind_of fs (mkPath a (rev rest))) as [[|]|] eqn:Hpar.
      * discriminate.
      * intros [= <-] Hq. by apply kind_of_insert_absent.
      * destruct (mkdir_rev a rest fs) as [fs1|] eqn:Hrec; [|discriminate].
        intros [= <-] Hq.
        destruct (decide (mkPath a (rev (x :: rest)) = q)) as [<-|Hne].
        -- congruence.
        -- rewrite kind_of_insert_other by done. eauto.
Qed.

(** What [mkdir] adds is a directory, at the path or above it. *)
Lemma mkdir_rev_adds a r : forall fs fs' q,
  mkdir_rev a r fs = Ok fs' ->
  kind_of fs' q = kind_of fs q \/
  (kind_of fs q = None /\ kind_of fs' q = Some Dir /\ anchored q = a /\
   parts q `prefix_of` rev r).
Proof.
  induction r as [|x rest IH]; intros fs fs' q; rewrite mkdir_rev_unfold.
  - destruct (kind_of fs _) as [[|]|]; try discriminate.
    intros [= <-]. by left.
  - destruct (kind_of fs (mkPath a (rev (x :: rest)))) as [[|]|] eqn:Hk.
    + discriminate.
    + intros [= <-]. by left.
    + assert (Hnew : forall fs1,
        kind_of fs1 q = kind_of fs q \/
        (kind_of fs q = None /\ kind_of fs1 q = Some Dir /\ anchored q = a /\
         parts q `prefix_of` rev rest) ->
        kind_of (<[mkPath a (rev (x :: rest)) := Dir]> fs1) q = kind_of fs q \/
        (kind_of fs q = None /\
         kind_of (<[mkPath a (rev (x :: rest)) := Dir]> fs1) q = Some Dir /\
         anchored q = a /\ parts q `prefix_of` rev (x :: rest))).
      { intros fs1 Hfs1.
        destruct (decide (mkPath a (rev (x :: rest)) = q)) as [<-|Hne].
        - right. rewrite kind_of_insert_same. done.
        - rewrite kind_of_insert_other by done.
          destruct Hfs1 as [?|(? & ? & ? & Hpre)]; [by left|right].
          repeat split; try done. simpl.
          by apply prefix_app_r. }
      destruct (kind_of fs (mkPath a (rev rest))) as [[|]|] eqn:Hpar.
      * discriminate.
      * intros [= <-]. apply Hnew. by left.
      * destruct (mkdir_rev a rest fs) as [fs1|] eqn:Hrec; [|discriminate].
        intros [= <-]. apply Hnew. by apply IH.
Qed.

Lemma no_file_on_rev_head fs a r :
  no_file_on_rev fs a r = true -> kind_of fs (mkPath a (rev r)) <> Some File.
Proof.
  intros Hno Hk. destruct r as [|x rest].
  - discriminate Hk.
  - simpl in Hno, Hk. rewrite Hk in Hno. discriminate.
Qed.

(** Then [mkdir] succeeds. *)
Lemma mkdir_rev_succeeds a r : forall fs,
  no_file_on_rev fs a r = true -> exists fs', mkdir_rev a r fs = Ok fs'.
Proof.
  induction r as [|x rest IH]; intros fs; rewrite mkdir_rev_unfold; simpl.
  - unfold kind_of. simpl. eauto.
  - destruct (kind_of fs (mkPath a (rev rest ++ [x]))) as [[|]|] eqn:Hk.
    + discriminate.
    + eauto.
    + intros Hrest. destruct (IH fs Hrest) as [fs1 Hrec].
      destruct (kind_of fs (mkPath a (rev rest))) as [[|]|] eqn:Hpar.
      * by apply no_file_on_rev_head in Hrest.
      * eauto.
      * rewrite Hrec. eauto.
Qed.

Lemma no_file_on_rev_mono a r : forall fs fs',
  (forall q, kind_of fs' q = Some File -> kind_of fs q = Some File) ->
  no_file_on_rev fs a r = true -> no_file_on_rev fs' a r = true.
Proof.
  induction r as [|x rest IH]; intros fs fs' Hsub; simpl.
  - done.
  - destruct (kind_of fs' (mkPath a (rev rest ++ [x]))) as [[|]|] eqn:Hk.
    + by rewrite (Hsub _ Hk).
    + destruct (kind_of fs _) as [[|]|]; try done; by apply IH.
    + destruct (kind_of fs _) as [[|]|]; try done; by apply IH.
Qed.

Lemma mkdir_ok_inv p fs u fs' :
  mkdir p fs = (Ok u, fs') ->
  mkdir_rev (anchored p) (rev (parts p)) fs = Ok fs'.
Proof.
  unfold mkdir. destruct (mkdir_rev _ _ fs); [|discriminate]. congruence.
Qed.

Lemma mkdir_is_dir p fs u fs' :
  mkdir p fs = (Ok u, fs') -> is_dir fs' p = true.
Proof.
  intros Hm%mkdir_ok_inv%mkdir_rev_is_dir.
  rewrite rev_involutive in Hm. unfold is_dir.
  destruct p as [a ps]. simpl in Hm. by rewrite Hm.
Qed.

Lemma mkdir_keeps p fs u fs' q k :
  mkdir p fs = (Ok u, fs') -> kind_of fs q = Some k -> kind_of fs' q = Some k.
Proof. intros Hm%mkdir_ok_inv. by apply mkdir_rev_keeps with (1 := Hm). Qed.

Lemma mkdir_adds p fs u fs' q :
  mkdir p fs = (Ok u, fs') ->
  kind_of fs' q = kind_of fs q \/
  (kind_of fs q = None /\ kind_of fs' q = Some Dir /\
   anchored q = anchored p /\ parts q `prefix_of` parts p).
Proof.
  intros Hm%mkdir_ok_inv.
  pose proof (mkdir_rev_adds _ _ _ _ q Hm) as Ha.
  by rewrite rev_involutive in Ha.
Qed.

Lemma mkdir_no_new_file p fs u fs' q :
  mkdir p fs = (Ok u, fs') -> kind_of fs' q = Some File ->
  kind_of fs q = Some File.
Proof.
  intros Hm Hq. destruct (mkdir_adds _ _ _ _ q Hm) as [<-|(_ & Hd & _)];
    congruence.
Qed.

Lemma mkdir_raise_unchanged p fs e fs' :
  mkdir p fs = (Raise e, fs') -> fs' = fs.
Proof.
  unfold mkdir. destruct (mkdir_rev _ _ fs); [discriminate|]. congruence.
Qed.

Lemma mkdir_succeeds p fs :
  no_file_on fs p = true -> exists fs', mkdir p fs = (Ok tt, fs').
Proof.
  intros [fs' Hfs']%mkdir_rev_succeeds. unfold mkdir. rewrite Hfs'. eauto.
Qed.

Lemma no_file_on_after_mkdir p q fs u fs' :
  mkdir p fs = (Ok u, fs') -> no_file_on fs q = true ->
  no_file_on fs' q = true.
Proof.
  intros Hm. apply no_file_on_rev_mono. intros q'.
  by apply mkdir_no_new_file with (1 := Hm).
Qed.

(** A path strictly below [p] is not touched by [mkdir p]. *)
Lemma mkdir_below_unchanged p fs u fs' s w ws :
  mkdir p fs = (Ok u, fs') ->
  path_of_string s = mkPath false (w :: ws) ->
  kind_of fs' (joinpath p s) = kind_of fs (joinpath p s).
Proof.
  intros Hm Hs.
  destruct (mkdir_adds _ _ _ _ (joinpath p s) Hm) as [|(_ & _ & _ & Hpre)];
    [done|].
  unfold joinpath in Hpre. rewrite Hs in Hpre. simpl in Hpre.
  apply prefix_length in Hpre. rewrite length_app in Hpre. simpl in Hpre. lia.
Qed.

End FileSystemFacts.

(** ** The directory getters *)

Section DirectoryGetters.

Import Paths.

Variable module_file : Path.

Implicit Types (fs : gmap Path kind) (p q : Path).

Lemma get_songgen_models_dir_inv fs p fs' :
  get_songgen_models_dir module_file fs = (Ok p, fs') ->
  p = songgen_dir module_file /\ mkdir p fs = (Ok tt, fs').
Proof.
  unfold get_songgen_models_dir, bind, ret. fold (songgen_dir module_file).
  destruct (mkdir (songgen_dir module_file) fs) as [[[]|e] fs1] eqn:Hm;
    [|discriminate].
  intros [= <- <-]. done.
Qed.

Lemma get_model_variant_dir_inv variant fs p fs' :
  get_model_variant_dir module_file variant fs = (Ok p, fs') ->
  p = joinpath (songgen_dir module_file) variant /\
  exists fs1, mkdir (songgen_dir module_file) fs = (Ok tt, fs1) /\
              mkdir p fs1 = (Ok tt, fs').
Proof.
  unfold get_model_variant_dir. unfold bind at 1.
  destruct (get_songgen_models_dir module_file fs) as [[d|e] fs1] eqn:Hd;
    [|discriminate].
  apply get_songgen_models_dir_inv in Hd as [-> Hm1].
  unfold bind, ret.
  destruct (mkdir (joinpath (songgen_dir module_file) variant) fs1)
    as [[[]|e] fs2] eqn:Hm2; [|discriminate].
  intros [= <- <-]. eauto.
Qed.


Lemma get_model_variant_dir_succeeds variant fs :
  no_file_on fs (songgen_dir module_file) = true ->
  no_file_on fs (joinpath (songgen_dir module_file) variant) = true ->
  exists fs', get_model_variant_dir module_file variant fs
              = (Ok (joinpath (songgen_dir module_file) variant), fs').
Proof.
  intros H1 H2. destruct (mkdir_succeeds _ _ H1) as [fs1 Hm1].
  pose proof (no_file_on_after_mkdir _ _ _ _ _ Hm1 H2) as H2'.
  destruct (mkdir_succeeds _ _ H2') as [fs2 Hm2].
  exists fs2. unfold get_model_variant_dir, get_songgen_models_dir, bind, ret.
  fold (songgen_dir module_file). by rewrite Hm1, Hm2.
Qed.

Lemma get_model_variant_dir_raises variant fs e fs' :
  get_model_variant_dir module_file variant fs = (Raise e, fs') ->
  mkdir (songgen_dir module_file) fs = (Raise e, fs') \/
  exists fs1, mkdir (songgen_dir module_file) fs = (Ok tt, fs1) /\
    mkdir (joinpath (songgen_dir module_file) variant) fs1 = (Raise e, fs').
Proof.
  unfold get_model_variant_dir, get_songgen_models_dir, bind, ret.
  fold (songgen_dir module_file).
  destruct (mkdir (songgen_dir module_file) fs) as [[[]|e1] fs1] eqn:Hm1.
  - destruct (mkdir (joinpath (songgen_dir module_file) variant) fs1)
      as [[[]|e2] fs2] eqn:Hm2; [discriminate|].
    intros [= <- <-]. eauto.
  - intros [= <- <-]. by left.
Qed.

End DirectoryGetters.

(** ** Well-formed file systems *)

Section ParentClosed.

Import Paths.

Implicit Types (fs : gmap Path kind) (p q : Path).

Lemma is_dir_insert fs p q :
  is_dir fs q = true -> is_dir (<[p := Dir]> fs) q = true.
Proof.
  unfold is_dir. destruct (decide (p = q)) as [->|Hne].
  - by rewrite kind_of_insert_same.
  - by rewrite kind_of_insert_other.
Qed.

Lemma parent_closed_insert fs p :
  parent_closed fs -> is_dir fs (parent p) = true ->
  parent_closed (<[p := Dir]> fs).
Proof.
  intros Hpc Hpar q Hq. apply is_dir_insert.
  destruct (decide (p = q)) as [<-|Hne]; [done|].
  rewrite lookup_insert_ne in Hq by done. by apply Hpc.
Qed.

Lemma parent_snoc a (l : list string) x :
  parent (mkPath a (l ++ [x])) = mkPath a l.
Proof. unfold parent. simpl. by rewrite removelast_last. Qed.

Lemma mkdir_rev_parent_closed a r : forall fs fs',
  parent_closed fs -> mkdir_rev a r fs = Ok fs' -> parent_closed fs'.
Proof.
  induction r as [|x rest IH]; intros fs fs' Hpc; rewrite mkdir_rev_unfold.
  - destruct (kind_of fs _) as [[|]|]; try discriminate. by intros [= <-].
  - destruct (kind_of fs (mkPath a (rev (x :: rest)))) as [[|]|].
    + discriminate.
    + by intros [= <-].
    + simpl. destruct (kind_of fs (mkPath a (rev rest))) as [[|]|] eqn:Hpar.
      * discriminate.
      * intros [= <-]. apply parent_closed_insert; [done|].
        rewrite parent_snoc. unfold is_dir. by rewrite Hpar.
      * destruct (mkdir_rev a rest fs) as [fs1|] eqn:Hrec; [|discriminate].
        intros [= <-]. apply parent_closed_insert; [by eapply IH|].
        rewrite parent_snoc. unfold is_dir.
        by rewrite (mkdir_rev_is_dir _ _ _ _ Hrec).
Qed.

Lemma mkdir_parent_closed p fs u fs' :
  parent_closed fs -> mkdir p fs = (Ok u, fs') -> parent_closed fs'.
Proof. intros Hpc Hm%mkdir_ok_inv. by eapply mkdir_rev_parent_closed. Qed.

Lemma kind_of_snoc fs a (l : list string) x :
  kind_of fs (mkPath a (l ++ [x])) = fs !! mkPath a (l ++ [x]).
Proof. unfold kind_of. simpl. by destruct l. Qed.

(** In a well-formed file system everything above a directory is a
    directory. *)
Lemma parent_closed_ancestors fs a (r : list string) :
  parent_closed fs ->
  is_dir fs (mkPath a (rev r)) = true ->
  forall l, l `prefix_of` rev r -> is_dir fs (mkPath a l) = true.
Proof.
  intros Hpc. induction r as [|x rest IH]; intros Hd l Hl.
  - simpl in Hl. apply prefix_nil_inv in Hl as ->. done.
  - simpl in Hd, Hl.
    assert (Hpar : is_dir fs (mkPath a (rev rest)) = true).
    { rewrite <- (parent_snoc a (rev rest) x). apply Hpc.
      unfold is_dir in Hd. rewrite kind_of_snoc in Hd.
      destruct (fs !! _); [eauto|discriminate]. }
    destruct Hl as [k Hk].
    destruct k as [|y k _] using rev_ind.
    + rewrite app_nil_r in Hk. by rewrite <- Hk.
    + rewrite app_assoc in Hk. apply app_inj_tail in Hk as [Hk _].
      apply IH; [done|]. by exists k.
Qed.

End ParentClosed.

(** ** The three checks *)

Section Checks.

Import Paths.

Variable module_file : Path.

Implicit Types (fs : gmap Path kind) (p q : Path).

Lemma append_if_missing_fold {X} fs (path_of : X -> Path)
      (label : X -> string) (xs : list X) : forall acc,
  fold_left (append_if_missing fs path_of label) xs acc =
  acc ++ List.map label
           (List.filter (fun x => negb (path_exists fs (path_of x))) xs).
Proof.
  induction xs as [|x xs IH]; intros acc; simpl.
  - by rewrite app_nil_r.
  - rewrite IH. unfold append_if_missing.
    destruct (negb (path_exists fs (path_of x))); simpl; [|done].
    by rewrite <- app_assoc.
Qed.

Lemma length_eqb_nil {X} (l : list X) :
  Nat.eqb (length l) 0 = true <-> l = [].
Proof. destruct l; simpl; split; intros; done. Qed.

Lemma check_model_files_ok variant fs r fs' :
  check_model_files module_file variant fs = (Ok r, fs') ->
  get_model_variant_dir module_file variant fs = (Ok (cr_path r), fs') /\
  cr_missing r = absent fs' (cr_path r) required_files /\
  (cr_exists r = true <-> cr_missing r = []).
Proof.
  unfold check_model_files, bind.
  destruct (get_model_variant_dir module_file variant fs)
    as [[vd|e] fs1] eqn:Hd; [|discriminate].
  intros [= <- <-]. cbn [cr_path cr_missing cr_exists]. split; [done|].
  split; [|apply length_eqb_nil].
  unfold absent, required_files, append_if_missing. simpl.
  by repeat (destruct (path_exists fs1 _); simpl).
Qed.

Lemma check_model_files_raise variant fs e fs' :
  check_model_files module_file variant fs = (Raise e, fs') <->
  get_model_variant_dir module_file variant fs = (Raise e, fs').
Proof.
  unfold check_model_files, bind.
  destruct (get_model_variant_dir module_file variant fs) as [[vd|e1] fs1];
    split; intros; congruence.
Qed.

Lemma name_joinpath p s w :
  path_of_string s = mkPath false [w] -> name (joinpath p s) = w.
Proof.
  intros Hs. unfold name, joinpath. rewrite Hs. simpl. apply last_last.
Qed.

Lemma check_checkpoint_files_ok fs r fs' :
  check_checkpoint_files module_file fs = (Ok r, fs') ->
  get_songgen_models_dir module_file fs = (Ok (songgen_dir module_file), fs') /\
  cr_path r = joinpath (songgen_dir module_file) "ckpt" /\
  cr_missing r = absent fs' (cr_path r) ["model_1rvq"; "model_septoken"; "vae"] /\
  (cr_exists r = true <-> cr_missing r = []).
Proof.
  unfold check_checkpoint_files, get_checkpoints_dir. unfold bind at 1 2.
  destruct (get_songgen_models_dir module_file fs) as [[d|e] fs1] eqn:Hd;
    [|discriminate].
  pose proof (get_songgen_models_dir_inv _ _ _ _ Hd) as [-> _].
  unfold ret. intros [= <- <-]. cbn [cr_path cr_missing cr_exists].
  split; [done|]. split; [done|].
  split; [|apply length_eqb_nil].
  unfold absent, required_items, append_if_missing. simpl.
  rewrite (name_joinpath _ "model_1rvq" "model_1rvq" eq_refl).
  rewrite (name_joinpath _ "model_septoken" "model_septoken" eq_refl).
  rewrite (name_joinpath _ "vae" "vae" eq_refl).
  by repeat (destruct (path_exists fs1 _); simpl).
Qed.

Lemma check_checkpoint_files_raise fs e fs' :
  check_checkpoint_files module_file fs = (Raise e, fs') <->
  get_songgen_models_dir module_file fs = (Raise e, fs').
Proof.
  unfold check_checkpoint_files, get_checkpoints_dir. unfold bind at 1 2.
  destruct (get_songgen_models_dir module_file fs) as [[d|e1] fs1];
    split; intros; try congruence. discriminate.
Qed.

Lemma strip_prefix_app (base l : list string) :
  strip_prefix base (base ++ l) = Some l.
Proof.
  induction base as [|b base IH]; simpl; [by destruct l|].
  by rewrite String.eqb_refl.
Qed.

Lemma relative_to_joinpath p s w ws :
  path_of_string s = mkPath false (w :: ws) ->
  relative_to (joinpath p s) p = Ok (mkPath false (w :: ws)).
Proof.
  intros Hs. unfold relative_to, joinpath. rewrite Hs. simpl.
  rewrite Bool.eqb_reflx. by rewrite strip_prefix_app.
Qed.

Lemma relative_to_below p (l : list string) :
  relative_to (mkPath (anchored p) (parts p ++ l)) p = Ok (mkPath false l).
Proof.
  unfold relative_to. simpl. by rewrite Bool.eqb_reflx, strip_prefix_app.
Qed.

Lemma check_bundled_files_ok fs :
  exists r,
    check_bundled_files module_file fs = (Ok r, fs) /\
    cr_path r = get_package_root module_file /\
    cr_missing r = absent fs (get_package_root module_file) required_dir_names /\
    (cr_exists r = true <-> cr_missing r = []).
Proof.
  unfold check_bundled_files, required_dirs, absent, required_dir_names.
  unfold joinpath. cbn -[get_package_root]. rewrite <- !app_assoc.
  cbn -[get_package_root].
  repeat (destruct (path_exists fs _); cbn -[get_package_root];
          rewrite ?relative_to_below; cbn -[get_package_root]);
    (eexists; split; [reflexivity|]; split; [reflexivity|];
     split; [reflexivity|]; by simpl; split).
Qed.

End Checks.

(** ** Properties of [paths.py] *)

Section PathClaims.

Import Paths.

Implicit Types (fs : gmap Path kind) (p q : Path).

Lemma mkdir_existing p fs : is_dir fs p = true -> mkdir p fs = (Ok tt, fs).
Proof.
  unfold is_dir, mkdir. rewrite mkdir_rev_unfold, rev_involutive.
  destruct p as [a ps]. simpl. by destruct (kind_of fs _) as [[|]|].
Qed.

Lemma mkdir_longer_unchanged p fs u fs' q :
  mkdir p fs = (Ok u, fs') -> (length (parts p) < length (parts q))%nat ->
  kind_of fs' q = kind_of fs q.
Proof.
  intros Hm Hlen.
  destruct (mkdir_adds _ _ _ _ q Hm) as [|(_ & _ & _ & Hpre)]; [done|].
  apply prefix_length in Hpre. lia.
Qed.

Lemma path_exists_ext fs fs' q :
  kind_of fs' q = kind_of fs q -> path_exists fs' q = path_exists fs q.
Proof. unfold path_exists. by intros ->. Qed.

Lemma absent_ext fs fs' dir names :
  (forall n, n ∈ names ->
     kind_of fs' (joinpath dir n) = kind_of fs (joinpath dir n)) ->
  absent fs' dir names = absent fs dir names.
Proof.
  unfold absent. induction names as [|n names IH]; intros Hext; [done|].
  simpl. rewrite (path_exists_ext fs fs') by (apply Hext; left).
  rewrite IH; [done|]. intros n' Hn'. apply Hext. by right.
Qed.

Lemma absent_subset fs dir names x : x ∈ absent fs dir names -> x ∈ names.
Proof.
  unfold absent. rewrite !list_elem_of_In, filter_In. tauto.
Qed.

Lemma joinpath_relative_parts p s :
  anchored (path_of_string s) = false ->
  joinpath p s = mkPath (anchored p) (parts p ++ parts (path_of_string s)).
Proof. unfold joinpath. by intros ->. Qed.

Lemma parts_joinpath_single p f w :
  path_of_string f = mkPath false [w] -> parts (joinpath p f) = parts p ++ [w].
Proof. unfold joinpath. by intros ->. Qed.

(** The variant directory of a relative variant name lies at or below
    [models/songgen], so its files are not touched when the two directories
    are created. *)
Lemma variant_files_untouched module_file variant fs fs' f w :
  anchored (path_of_string variant) = false ->
  path_of_string f = mkPath false [w] ->
  get_model_variant_dir module_file variant fs
    = (Ok (joinpath (songgen_dir module_file) variant), fs') ->
  kind_of fs' (joinpath (joinpath (songgen_dir module_file) variant) f)
  = kind_of fs (joinpath (joinpath (songgen_dir module_file) variant) f).
Proof.
  intros Hrel Hf Hd.
  apply get_model_variant_dir_inv in Hd as (_ & fs1 & Hm1 & Hm2).
  rewrite (mkdir_longer_unchanged _ _ _ _ _ Hm2).
  - apply (mkdir_longer_unchanged _ _ _ _ _ Hm1).
    rewrite (parts_joinpath_single _ f w Hf).
    rewrite (joinpath_relative_parts _ variant Hrel).
    simpl. rewrite !length_app. simpl. lia.
  - rewrite (parts_joinpath_single _ f w Hf), length_app. simpl. lia.
Qed.

Lemma check_model_files_succeeds module_file variant fs :
  no_file_on fs (songgen_dir module_file) = true ->
  no_file_on fs (joinpath (songgen_dir module_file) variant) = true ->
  exists r fs', check_model_files module_file variant fs = (Ok r, fs').
Proof.
  intros H1 H2.
  destruct (get_model_variant_dir_succeeds module_file variant fs H1 H2)
    as [fs' Hd].
  unfold check_model_files, bind. rewrite Hd. eauto.
Qed.

(** C4, amended: whenever [check_model_files] returns (the directories
    it makes on the way could be made) and the path of the variant
    directory has no [".."] component, it returns a dictionary whose
    ['missing'] list holds exactly those of [config.yaml] and [model.pt]
    that do not exist under [models/songgen/<variant>/], with ['exists']
    true exactly when the list is empty. Whenever [check_checkpoint_files]
    returns it does the same for [model_1rvq], [model_septoken] and [vae]
    under [models/songgen/ckpt/], and [check_bundled_files] does it in
    every state for the six bundled directories. *)
Theorem check_files_report_the_absent :
  forall (module_file : Path) (variant : string) (fs : gmap Path kind),
    let models := songgen_dir module_file in
    let vd := joinpath models variant in
    let ckpt := joinpath models "ckpt" in
    (forall r fs',
        check_model_files module_file variant fs = (Ok r, fs') ->
        no_dotdot models = true -> no_dotdot vd = true ->
        cr_path r = vd /\
        cr_missing r = absent fs' vd ["config.yaml"; "model.pt"] /\
        (anchored (path_of_string variant) = false ->
         cr_missing r = absent fs vd ["config.yaml"; "model.pt"]) /\
        (cr_exists r = true <-> cr_missing r = [])) /\
    (forall r fs',
        check_checkpoint_files module_file fs = (Ok r, fs') ->
        no_dotdot models = true ->
        cr_path r = ckpt /\
        cr_missing r = absent fs' ckpt ["model_1rvq"; "model_septoken"; "vae"] /\
        cr_missing r = absent fs ckpt ["model_1rvq"; "model_septoken"; "vae"] /\
        (cr_exists r = true <-> cr_missing r = [])) /\
    (exists r,
        check_bundled_files module_file fs = (Ok r, fs) /\
        cr_path r = get_package_root module_file /\
        cr_missing r
        = absent fs (get_package_root module_file) required_dir_names /\
        (cr_exists r = true <-> cr_missing r = [])).
Proof.
  intros module_file variant fs models vd ckpt.
  split; [|split].
  - intros r fs' Hc _ _.
    apply check_model_files_ok in Hc as (Hd & Hmiss & Hex).
    pose proof (get_model_variant_dir_inv _ _ _ _ _ Hd) as (Hp & _).
    fold models in Hp. fold vd in Hp. rewrite Hp in Hmiss, Hd.
    repeat split; try done; try apply Hex.
    intros Hrel. rewrite Hmiss. apply absent_ext. intros n Hn.
    apply (variant_files_untouched module_file variant fs fs' n n Hrel);
      [|done].
    set_unfold in Hn. by destruct Hn as [->|[->|[]]].
  - intros r fs' Hc _.
    apply check_checkpoint_files_ok in Hc as (Hd & Hp & Hmiss & Hex).
    fold models in Hp. fold ckpt in Hp. rewrite Hp in Hmiss.
    repeat split; try done; try apply Hex.
    rewrite Hmiss. apply absent_ext. intros n Hn.
    apply get_songgen_models_dir_inv in Hd as [_ Hm].
    apply (mkdir_longer_unchanged _ _ _ _ _ Hm).
    set_unfold in Hn.
    destruct Hn as [->|[->|[->|[]]]];
      [ rewrite (parts_joinpath_single _ "model_1rvq" "model_1rvq" eq_refl)
      | rewrite (parts_joinpath_single _ "model_septoken" "model_septoken" eq_refl)
      | rewrite (parts_joinpath_single _ "vae" "vae" eq_refl) ];
      unfold ckpt; rewrite (parts_joinpath_single _ "ckpt" "ckpt" eq_refl);
      rewrite !length_app; simpl; lia.
  - apply check_bundled_files_ok.
Qed.

(** Applied to a disk that holds the installation and no models. *)
Lemma check_files_report_the_absent_witness :
  exists r fs',
    check_model_files sample_module_file "songgeneration_base" sample_fs
    = (Ok r, fs') /\
    cr_missing r = ["config.yaml"; "model.pt"] /\ cr_exists r = false.
Proof.
  destruct (check_model_files_succeeds sample_module_file
              "songgeneration_base" sample_fs eq_refl eq_refl)
    as (r & fs' & Hc).
  destruct (check_files_report_the_absent sample_module_file
              "songgeneration_base" sample_fs) as (Hok & _).
  exists r, fs'. split; [exact Hc|].
  destruct (Hok r fs' Hc eq_refl eq_refl) as (_ & _ & Hmiss & Hex).
  specialize (Hmiss eq_refl). split; [exact Hmiss|].
  destruct (cr_exists r); [|done].
  destruct Hex as [Hex _]. rewrite Hmiss in Hex. by specialize (Hex eq_refl).
Defined.

(** C4 as stated fails where the variant directory cannot be created: with
    a regular file in its place [mkdir] raises [FileExistsError] and no
    dictionary is returned. *)
Lemma check_model_files_raises_on_file :
  fst (check_model_files sample_module_file "songgeneration_base"
         sample_fs_variant_is_file)
  = Raise (FileExistsError
             (path_of_string "/ComfyUI/models/songgen/songgeneration_base"))
  /\ ~ exists r fs',
       check_model_files sample_module_file "songgeneration_base"
         sample_fs_variant_is_file = (Ok r, fs').
Proof.
  assert (H : fst (check_model_files sample_module_file "songgeneration_base"
                     sample_fs_variant_is_file)
              = Raise (FileExistsError
                  (path_of_string "/ComfyUI/models/songgen/songgeneration_base")))
    by (vm_compute; reflexivity).
  split; [exact H|].
  intros (r & fs' & Hc). rewrite Hc in H. discriminate.
Qed.

End PathClaims.

Section DirectoryClaims.

Import Paths.

Implicit Types (fs : gmap Path kind) (p q : Path).

(** What a successful [mkdir] leaves behind. *)
Lemma mkdir_creates p fs u fs' :
  mkdir p fs = (Ok u, fs') ->
  is_dir fs' p = true /\
  (forall q k, kind_of fs q = Some k -> kind_of fs' q = Some k) /\
  (is_dir fs p = true -> fs' = fs) /\
  (parent_closed fs ->
   parent_closed fs' /\
   forall l, l `prefix_of` parts p -> is_dir fs' (mkPath (anchored p) l) = true).
Proof.
  intros Hm. pose proof (mkdir_is_dir _ _ _ _ Hm) as Hd.
  split; [done|]. split; [|split].
  - intros q k. by apply mkdir_keeps with (1 := Hm).
  - intros Hex. rewrite (mkdir_existing _ _ Hex) in Hm. congruence.
  - intros Hpc. pose proof (mkdir_parent_closed _ _ _ _ Hpc Hm) as Hpc'.
    split; [done|]. intros l Hl. destruct p as [a ps]. simpl in *.
    apply (parent_closed_ancestors fs' a (rev ps) Hpc');
      by rewrite rev_involutive.
Qed.

(** C10: when [get_songgen_models_dir] or [get_model_variant_dir] returns,
    the returned path is a directory; it was created, with every missing
    directory above it, if it was absent, nothing that existed is lost, and
    a directory already there is left alone. So a dictionary returned by
    [check_model_files] has a directory as its ['path'] and nothing but
    [config.yaml] and [model.pt] in its ['missing'] list. *)
Theorem directory_getters_create_the_directory :
  forall (module_file : Path) (variant : string) (fs : gmap Path kind),
    let models := songgen_dir module_file in
    let vd := joinpath models variant in
    (forall p fs',
        get_songgen_models_dir module_file fs = (Ok p, fs') ->
        p = models /\ is_dir fs' p = true /\
        (forall q k, kind_of fs q = Some k -> kind_of fs' q = Some k) /\
        (is_dir fs p = true -> fs' = fs) /\
        (parent_closed fs ->
         parent_closed fs' /\
         forall l, l `prefix_of` parts p ->
                   is_dir fs' (mkPath (anchored p) l) = true)) /\
    (forall p fs',
        get_model_variant_dir module_file variant fs = (Ok p, fs') ->
        p = vd /\ is_dir fs' p = true /\
        (forall q k, kind_of fs q = Some k -> kind_of fs' q = Some k) /\
        (is_dir fs models = true -> is_dir fs p = true -> fs' = fs) /\
        (parent_closed fs ->
         parent_closed fs' /\
         forall l, l `prefix_of` parts p ->
                   is_dir fs' (mkPath (anchored p) l) = true)) /\
    (forall r fs',
        check_model_files module_file variant fs = (Ok r, fs') ->
        cr_path r = vd /\ is_dir fs' (cr_path r) = true /\
        forall x, x ∈ cr_missing r -> x = "config.yaml" \/ x = "model.pt").
Proof.
  intros module_file variant fs models vd.
  split; [|split].
  - intros p fs' Hd.
    apply get_songgen_models_dir_inv in Hd as [-> Hm].
    split; [done|]. by apply mkdir_creates with (u := tt).
  - intros p fs' Hd.
    apply get_model_variant_dir_inv in Hd as (-> & fs1 & Hm1 & Hm2).
    apply mkdir_creates in Hm1 as (_ & Hk1 & Hsame1 & Hpc1).
    apply mkdir_creates in Hm2 as (Hd2 & Hk2 & Hsame2 & Hpc2).
    split; [done|]. split; [done|]. split; [|split].
    + intros q k Hq. eauto.
    + intros Hex1 Hex2. specialize (Hsame1 Hex1). subst fs1. auto.
    + intros Hpc. apply Hpc2. by apply Hpc1.
  - intros r fs' Hc.
    apply check_model_files_ok in Hc as (Hd & Hmiss & _).
    apply get_model_variant_dir_inv in Hd as (Hp & fs1 & _ & Hm2).
    split; [done|]. split; [by apply mkdir_is_dir with (1 := Hm2)|].
    intros x Hx. rewrite Hmiss in Hx. apply absent_subset in Hx.
    set_unfold in Hx. tauto.
Qed.

Lemma parent_closed_empty : parent_closed ∅.
Proof. intros p [k Hk]. by rewrite lookup_empty in Hk. Qed.

(** Applied to an empty disk: the whole chain of directories appears. *)
Lemma directory_getters_create_the_directory_witness :
  exists fs',
    get_model_variant_dir sample_module_file "songgeneration_base" ∅
    = (Ok (path_of_string "/ComfyUI/models/songgen/songgeneration_base"), fs')
    /\ is_dir fs' (path_of_string "/ComfyUI/models/songgen/songgeneration_base")
       = true
    /\ is_dir fs' (path_of_string "/ComfyUI/models") = true.
Proof.
  assert (H1 : no_file_on (∅ : gmap Path kind)
                 (songgen_dir sample_module_file) = true)
    by (vm_compute; reflexivity).
  assert (H2 : no_file_on (∅ : gmap Path kind)
                 (joinpath (songgen_dir sample_module_file)
                    "songgeneration_base") = true)
    by (vm_compute; reflexivity).
  destruct (get_model_variant_dir_succeeds sample_module_file
              "songgeneration_base" ∅ H1 H2) as [fs' Hd].
  destruct (directory_getters_create_the_directory sample_module_file
              "songgeneration_base" ∅) as (_ & Hv & _).
  exists fs'. split; [exact Hd|].
  destruct (Hv _ _ Hd) as (_ & Hdir & _ & _ & Hpc).
  split; [exact Hdir|].
  destruct (Hpc parent_closed_empty) as [_ Habove].
  apply (Habove ["ComfyUI"; "models"]).
  by exists ["songgen"; "songgeneration_base"].
Defined.

(** ** [setup_bundled_imports] *)

Lemma add_path_cases fs (sys_path : list string) (path : string) :
  (add_path fs sys_path path = path :: sys_path /\
   (path ∉ sys_path) /\ path_exists fs (path_of_string path) = true) \/
  (add_path fs sys_path path = sys_path /\
   (path ∈ sys_path \/ path_exists fs (path_of_string path) = false)).
Proof.
  unfold add_path. case_bool_decide as Hin; simpl.
  - right. auto.
  - destruct (path_exists fs (path_of_string path)); [left|right]; auto.
Qed.

(** The loop only prepends: the new entries exist, were not in [sys.path],
    and none is entered twice. *)
Lemma fold_add_path_prepends fs (candidates : list string) :
  forall sys_path : list string,
  exists added : list string,
    fold_left (add_path fs) candidates sys_path = added ++ sys_path /\
    NoDup added /\
    forall x, x ∈ added ->
      x ∈ candidates /\ (x ∉ sys_path) /\
      path_exists fs (path_of_string x) = true.
Proof.
  induction candidates as [|c cs IH]; intros sys_path; simpl.
  - exists []. split; [done|]. split; [constructor|]. intros x Hx.
    by apply not_elem_of_nil in Hx.
  - destruct (add_path_cases fs sys_path c) as [(-> & Hnin & Hex)|(-> & _)].
    + destruct (IH (c :: sys_path)) as (added & -> & Hnd & Hadded).
      exists (added ++ [c]). rewrite <- app_assoc. split; [done|]. split.
      * apply NoDup_app. split; [done|]. split; [|apply NoDup_singleton].
        intros x Hx Hc. apply list_elem_of_singleton in Hc as ->.
        destruct (Hadded c Hx) as (_ & Hnin' & _). apply Hnin'. by left.
      * intros x [Hx|Hx]%elem_of_app.
        -- destruct (Hadded x Hx) as (? & Hnin' & ?).
           split; [by right|]. split; [|done].
           intros Hin. apply Hnin'. by right.
        -- apply list_elem_of_singleton in Hx as ->.
           split; [by left|]. done.
    + destruct (IH sys_path) as (added & -> & Hnd & Hadded).
      exists added. split; [done|]. split; [done|].
      intros x Hx. destruct (Hadded x Hx) as (? & ? & ?).
      split; [by right|]. done.
Qed.

(** Nothing is left to add when every candidate is present or missing
    on disk. *)
Lemma fold_add_path_fixed fs (candidates : list string) :
  forall sys_path : list string,
    (forall c, c ∈ candidates ->
       c ∈ sys_path \/ path_exists fs (path_of_string c) = false) ->
    fold_left (add_path fs) candidates sys_path = sys_path.
Proof.
  induction candidates as [|c cs IH]; intros sys_path Hall; simpl; [done|].
  destruct (add_path_cases fs sys_path c) as [(_ & Hnin & Hex)|(-> & _)].
  - destruct (Hall c) as [?|Hne]; [by left|done|congruence].
  - apply IH. intros c' Hc'. apply Hall. by right.
Qed.

(** After the loop every candidate is present or missing on disk. *)
Lemma fold_add_path_saturates fs (candidates : list string) :
  forall (sys_path : list string) c, c ∈ candidates ->
    c ∈ fold_left (add_path fs) candidates sys_path \/
    path_exists fs (path_of_string c) = false.
Proof.
  induction candidates as [|c0 cs IH]; intros sys_path c Hc; simpl.
  - by apply not_elem_of_nil in Hc.
  - apply elem_of_cons in Hc as [->|Hc]; [|by apply IH].
    destruct (fold_add_path_prepends fs cs (add_path fs sys_path c0))
      as (added & -> & _).
    destruct (add_path_cases fs sys_path c0)
      as [(-> & _)|(-> & [Hin|Hne])].
    + left. apply elem_of_app. right. by left.
    + left. apply elem_of_app. by right.
    + by right.
Qed.

(** C9: [setup_bundled_imports] run twice leaves [sys.path] as one run
    does; what it returns is the old [sys.path] with new entries in front,
    each of them one of the four bundled paths, existing on disk, not in
    [sys.path] before, and entered once. *)
Theorem setup_bundled_imports_idempotent :
  forall (module_file : Path) (fs : gmap Path kind) (sys_path : list string),
    setup_bundled_imports module_file fs
      (setup_bundled_imports module_file fs sys_path)
    = setup_bundled_imports module_file fs sys_path /\
    exists added : list string,
      setup_bundled_imports module_file fs sys_path = added ++ sys_path /\
      NoDup added /\
      forall x, x ∈ added ->
        x ∈ paths_to_add module_file /\ (x ∉ sys_path) /\
        path_exists fs (path_of_string x) = true.
Proof.
  intros module_file fs sys_path. unfold setup_bundled_imports. split.
  - apply fold_add_path_fixed. intros c Hc.
    by apply fold_add_path_saturates.
  - apply fold_add_path_prepends.
Qed.

(** On the sample disk the package root and [codeclm] exist; a second run
    adds nothing. *)
Lemma setup_bundled_imports_idempotent_witness :
  setup_bundled_imports sample_module_file sample_fs
    (setup_bundled_imports sample_module_file sample_fs ["/usr/lib/python3"])
  = [ "/ComfyUI/custom_nodes/ComfyUI_FL-SongGen/codeclm";
      "/ComfyUI/custom_nodes/ComfyUI_FL-SongGen";
      "/usr/lib/python3" ].
Proof.
  rewrite (proj1 (setup_bundled_imports_idempotent sample_module_file
                    sample_fs ["/usr/lib/python3"])).
  vm_compute. reflexivity.
Defined.

End DirectoryClaims.

(** ** Properties of [compat.py] *)

Section CompatFacts.

Import Compat.

Implicit Types (S : gset Z) (mask : list bool).

Lemma length_mask_rows d S n : length (mask_rows d S n) = Z.to_nat n.
Proof. unfold mask_rows. by rewrite length_fmap, length_seqZ. Qed.

Lemma ones_mask_rows n d :
  0 <= n -> 0 <= d -> ones n d = Ok (mask_rows d ∅ n).
Proof.
  intros Hn Hd. unfold ones, mask_rows.
  destruct (n <? 0) eqn:Hn'; [lia|]. destruct (d <? 0) eqn:Hd'; [lia|].
  simpl. f_equal. symmetry.
  rewrite <- (length_seqZ 0 n). by apply const_fmap.
Qed.

Lemma set_row_zero_mask_rows d S n h :
  0 <= h < n ->
  set_row_zero (mask_rows d S n) h = Ok (mask_rows d (S ∪ {[h]}) n).
Proof.
  intros Hh. unfold set_row_zero. rewrite length_mask_rows.
  rewrite Z2Nat.id by lia.
  destruct (- n <=? h) eqn:H1; [|lia]. destruct (h <? n) eqn:H2; [|lia].
  destruct (h <? 0) eqn:H3; [lia|]. simpl. f_equal.
  apply list_eq. intros j. unfold mask_rows.
  rewrite list_lookup_alter, !list_lookup_fmap.
  destruct (decide (Z.to_nat h = j)) as [<-|Hne].
  - rewrite lookup_seqZ_lt by lia. simpl. rewrite fmap_replicate.
    rewrite Z2Nat.id by lia. rewrite bool_decide_eq_true_2; [done|].
    apply elem_of_union. right. by apply elem_of_singleton.
  - destruct (seqZ 0 n !! j) as [h'|] eqn:Hj; [|done]. simpl.
    apply lookup_seqZ in Hj as [-> Hlt].
    assert (Heq : bool_decide (0 + Z.of_nat j ∈ S ∪ {[h]})
                  = bool_decide (0 + Z.of_nat j ∈ S)).
    { apply bool_decide_ext. set_unfold. split; [|tauto].
      intros [?|?]; [done|lia]. }
    by rewrite Heq.
Qed.

Lemma zero_rows_mask_rows d n (heads : list Z) : forall S,
  (forall h, h ∈ heads -> 0 <= h < n) ->
  zero_rows (mask_rows d S n) heads
  = Ok (mask_rows d (S ∪ list_to_set heads) n).
Proof.
  induction heads as [|h heads IH]; intros S Hrange; simpl.
  - by rewrite (right_id_L ∅ (∪)).
  - rewrite set_row_zero_mask_rows by (apply Hrange; left).
    rewrite IH by (intros h' Hh'; apply Hrange; by right).
    by rewrite (assoc_L (∪)).
Qed.

(** The order in which the heads are visited does not matter, as long as
    every head is in range. *)
Lemma zero_rows_any_order d n S (heads1 heads2 : list Z) :
  heads1 ≡ₚ heads2 ->
  (forall h, h ∈ heads1 -> 0 <= h < n) ->
  zero_rows (mask_rows d S n) heads1 = zero_rows (mask_rows d S n) heads2.
Proof.
  intros Hperm Hrange.
  rewrite !zero_rows_mask_rows; [|intros h Hh; apply Hrange; by rewrite Hperm|done].
  do 2 f_equal. apply set_eq. intros h.
  rewrite !elem_of_union, !elem_of_list_to_set. by rewrite Hperm.
Qed.

Lemma select_from_app mask1 mask2 : forall i,
  select_from i (mask1 ++ mask2)
  = select_from i mask1 ++ select_from (i + Z.of_nat (length mask1)) mask2.
Proof.
  induction mask1 as [|b mask1 IH]; intros i; simpl.
  - by rewrite Z.add_0_r.
  - rewrite IH. replace (i + 1 + Z.of_nat (length mask1))
      with (i + Z.pos (Pos.of_succ_nat (length mask1))) by lia.
    by destruct b.
Qed.

Lemma select_from_all_true (d : nat) : forall i,
  select_from i (replicate d true) = seqZ i (Z.of_nat d).
Proof.
  induction d as [|d IH]; intros i; [done|].
  simpl replicate. simpl select_from. rewrite IH.
  rewrite (seqZ_cons i) by lia. do 2 f_equal; lia.
Qed.

Lemma select_from_all_false (d : nat) : forall i,
  select_from i (replicate d false) = [].
Proof. induction d as [|d IH]; intros i; [done|]. simpl. apply IH. Qed.

Lemma select_from_lower_bound mask : forall i,
  Forall (fun j => i <= j) (select_from i mask).
Proof.
  induction mask as [|b mask IH]; intros i; simpl; [constructor|].
  assert (Forall (fun j => i <= j) (select_from (i + 1) mask)).
  { eapply Forall_impl; [apply IH|]. simpl. lia. }
  destruct b; [constructor; [lia|done]|done].
Qed.

(** The selected positions come out in increasing order. *)
Lemma select_from_sorted mask : forall i,
  StronglySorted Z.lt (select_from i mask).
Proof.
  induction mask as [|b mask IH]; intros i; simpl; [constructor|].
  destruct b; [|apply IH]. constructor; [apply IH|].
  eapply Forall_impl; [apply select_from_lower_bound|]. simpl. lia.
Qed.

Lemma select_from_mask_rows (dn : nat) S (m : nat) : forall k,
  select_from (k * Z.of_nat dn)
    (flat_eq_one
       ((fun h => replicate dn (if bool_decide (h ∈ S) then 0 else 1))
          <$> seqZ k (Z.of_nat m)))
  = concat ((fun h => seqZ (h * Z.of_nat dn) (Z.of_nat dn))
              <$> filter (fun h => h ∉ S) (seqZ k (Z.of_nat m))).
Proof.
  induction m as [|m IH]; intros k; [done|].
  rewrite (seqZ_cons k) by lia.
  replace (Z.pred (Z.of_nat (Datatypes.S m))) with (Z.of_nat m) by lia.
  rewrite fmap_cons. unfold flat_eq_one in *. simpl concat.
  rewrite fmap_app, select_from_app, length_fmap, length_replicate.
  replace (k * Z.of_nat dn + Z.of_nat dn) with (Z.succ k * Z.of_nat dn) by lia.
  rewrite IH, fmap_replicate.
  case_bool_decide as Hk.
  - rewrite filter_cons_False by tauto. simpl.
    by rewrite select_from_all_false.
  - rewrite filter_cons_True by done. rewrite fmap_cons. simpl.
    by rewrite select_from_all_true.
Qed.

Lemma length_kept_blocks (d : Z) (hs : list Z) :
  length (concat ((fun h => seqZ (h * d) d) <$> hs))
  = (length hs * Z.to_nat d)%nat.
Proof.
  induction hs as [|h hs IH]; [done|].
  rewrite fmap_cons. simpl. rewrite length_app, length_seqZ, IH. lia.
Qed.

Lemma length_not_pruned n S :
  (forall h, h ∈ S -> 0 <= h < n) ->
  (length (filter (fun h => h ∉ S) (seqZ 0 n)) + size S)%nat = Z.to_nat n.
Proof.
  intros Hrange.
  pose proof (filter_app_complement (fun h => h ∈ S) (seqZ 0 n)) as Hperm.
  apply Permutation_length in Hperm.
  rewrite length_app, length_seqZ in Hperm.
  assert (Hin : filter (fun h => h ∈ S) (seqZ 0 n) ≡ₚ elements S).
  { apply NoDup_Permutation.
    - apply NoDup_filter, NoDup_seqZ.
    - apply NoDup_elements.
    - intros h. rewrite list_elem_of_filter, elem_of_seqZ, elem_of_elements.
      split; [tauto|]. intros Hh. split; [done|]. apply Hrange in Hh. lia. }
  apply Permutation_length in Hin.
  change (size S) with (length (elements S)). lia.
Qed.

Lemma elem_of_kept_positions n d S i :
  i ∈ kept_positions n d S <->
  exists h, 0 <= h < n /\ (h ∉ S) /\ h * d <= i < h * d + d.
Proof.
  unfold kept_positions. rewrite list_elem_of_In, in_concat. split.
  - intros (block & Hblock & Hi).
    apply list_elem_of_In, list_elem_of_fmap in Hblock as (h & -> & Hh).
    apply list_elem_of_filter in Hh as [Hn Hh].
    apply elem_of_seqZ in Hh. apply list_elem_of_In, elem_of_seqZ in Hi.
    exists h. split; [lia|]. done.
  - intros (h & Hh & Hn & Hi). exists (seqZ (h * d) d). split.
    + apply list_elem_of_In, list_elem_of_fmap. exists h. split; [done|].
      apply list_elem_of_filter. split; [done|]. apply elem_of_seqZ. lia.
    + apply list_elem_of_In, elem_of_seqZ. lia.
Qed.

(** A negative index in range is the index counted from the end. *)
Lemma set_row_zero_negative (mask : list (list Z)) h :
  - Z.of_nat (length mask) <= h < 0 ->
  set_row_zero mask h = set_row_zero mask (h + Z.of_nat (length mask)).
Proof.
  intros Hh. unfold set_row_zero.
  destruct (- Z.of_nat (length mask) <=? h) eqn:H1; [|lia].
  destruct (h <? Z.of_nat (length mask)) eqn:H2; [|lia].
  destruct (- Z.of_nat (length mask) <=? h + Z.of_nat (length mask)) eqn:H3;
    [|lia].
  destruct (h + Z.of_nat (length mask) <? Z.of_nat (length mask)) eqn:H4;
    [|lia].
  destruct (h <? 0) eqn:H5; [|lia].
  destruct (h + Z.of_nat (length mask) <? 0) eqn:H6; [lia|]. done.
Qed.

Lemma set_row_zero_wraps d S n h :
  - n <= h < n ->
  set_row_zero (mask_rows d S n) h = Ok (mask_rows d (S ∪ {[h `mod` n]}) n).
Proof.
  intros Hh. destruct (decide (0 <= h)) as [Hpos|Hneg].
  - rewrite Z.mod_small by lia. apply set_row_zero_mask_rows. lia.
  - rewrite set_row_zero_negative
      by (rewrite length_mask_rows, Z2Nat.id; lia).
    rewrite length_mask_rows, Z2Nat.id by lia.
    replace (h `mod` n) with (h + n)
      by (apply (Z.mod_unique_pos h n (-1)); lia).
    apply set_row_zero_mask_rows. lia.
Qed.

Lemma zero_rows_wraps d n heads : forall S,
  (forall h, h ∈ heads -> - n <= h < n) ->
  zero_rows (mask_rows d S n) heads
  = Ok (mask_rows d (S ∪ list_to_set ((fun h => h `mod` n) <$> heads)) n).
Proof.
  induction heads as [|h heads IH]; intros S Hrange; simpl.
  - by rewrite (right_id_L ∅ (∪)).
  - rewrite set_row_zero_wraps by (apply Hrange; left).
    rewrite IH by (intros h' Hh'; apply Hrange; by right).
    by rewrite (assoc_L (∪)).
Qed.

Lemma set_row_zero_raises d S n h :
  0 <= n -> ~ (- n <= h < n) ->
  set_row_zero (mask_rows d S n) h = Raise (IndexError h n).
Proof.
  intros Hn Hh. unfold set_row_zero.
  rewrite length_mask_rows, Z2Nat.id by done.
  destruct (- n <=? h) eqn:H1; destruct (h <? n) eqn:H2; try done. lia.
Qed.

Lemma zero_rows_raises d n heads : forall S,
  0 <= n ->
  (exists h, h ∈ heads /\ ~ (- n <= h < n)) ->
  exists h, h ∈ heads /\ ~ (- n <= h < n) /\
            zero_rows (mask_rows d S n) heads = Raise (IndexError h n).
Proof.
  induction heads as [|h0 heads IH]; intros S Hn (h & Hin & Hbad).
  - by apply elem_of_nil in Hin.
  - simpl. destruct (decide (- n <= h0 < n)) as [Hok|Hout].
    + rewrite set_row_zero_wraps by done.
      apply elem_of_cons in Hin as [->|Hin]; [done|].
      destruct (IH (S ∪ {[h0 `mod` n]}) Hn) as (h' & Hin' & Hbad' & Hrun);
        [eauto|].
      exists h'. split; [by right|]. done.
    + rewrite set_row_zero_raises by done.
      exists h0. split; [by left|]. done.
Qed.

(** The fallback on every input for which torch raises nothing. *)
Lemma fallback_run_in_range heads n d (pruned : gset Z) :
  0 <= n -> 0 <= d ->
  (forall h, h ∈ (list_to_set heads ∖ pruned : gset Z) -> - n <= h < n) ->
  find_pruneable_heads_and_indices heads n d pruned
  = Ok (list_to_set heads ∖ pruned,
        kept_positions n d
          (set_map (fun h => h `mod` n) (list_to_set heads ∖ pruned : gset Z))).
Proof.
  intros Hn Hd Hrange. unfold find_pruneable_heads_and_indices.
  rewrite ones_mask_rows by done.
  rewrite zero_rows_wraps
    by (intros h Hh; apply Hrange; by apply elem_of_elements).
  rewrite (left_id_L ∅ (∪)). do 2 f_equal.
  unfold mask_rows, kept_positions.
  pose proof (select_from_mask_rows (Z.to_nat d)
                (list_to_set ((fun h => h `mod` n)
                   <$> elements (list_to_set heads ∖ pruned : gset Z)))
                (Z.to_nat n) 0) as Hsel.
  rewrite !Z2Nat.id in Hsel by done. exact Hsel.
Qed.

Lemma zero_rows_ok_inv d n heads S (zeroed : list (list Z)) :
  0 <= n ->
  zero_rows (mask_rows d S n) heads = Ok zeroed ->
  forall h, h ∈ heads -> - n <= h < n.
Proof.
  intros Hn Hrun h Hh.
  destruct (decide (- n <= h < n)) as [|Hout]; [done|].
  destruct (zero_rows_raises d n heads S Hn) as (h' & _ & _ & Hraise);
    [eauto|].
  rewrite Hraise in Hrun. discriminate.
Qed.

(** What a returned pair tells about the call. *)
Lemma fallback_ok_inv heads n d (pruned : gset Z) hs index :
  find_pruneable_heads_and_indices heads n d pruned = Ok (hs, index) ->
  0 <= n /\ 0 <= d /\ hs = list_to_set heads ∖ pruned /\
  (forall h, h ∈ hs -> - n <= h < n) /\
  index = kept_positions n d (set_map (fun h => h `mod` n) hs) /\
  StronglySorted Z.lt index.
Proof.
  intros Hrun.
  assert (Hnd : 0 <= n /\ 0 <= d).
  { unfold find_pruneable_heads_and_indices, ones in Hrun.
    destruct (n <? 0) eqn:H1; [discriminate|].
    destruct (d <? 0) eqn:H2; [discriminate|]. lia. }
  destruct Hnd as [Hn Hd].
  assert (Hrange : forall h, h ∈ (list_to_set heads ∖ pruned : gset Z) ->
                             - n <= h < n).
  { unfold find_pruneable_heads_and_indices in Hrun.
    rewrite ones_mask_rows in Hrun by done.
    destruct (zero_rows _ _) as [zeroed|] eqn:Hz; [|discriminate].
    intros h Hh. apply (zero_rows_ok_inv _ _ _ _ _ Hn Hz).
    by apply elem_of_elements. }
  assert (Hsorted : StronglySorted Z.lt index).
  { unfold find_pruneable_heads_and_indices in Hrun.
    destruct (ones n d) as [mask|]; [|discriminate].
    destruct (zero_rows mask _) as [zeroed|]; [|discriminate].
    injection Hrun as _ <-. apply select_from_sorted. }
  rewrite fallback_run_in_range in Hrun by done.
  injection Hrun as <- <-. done.
Qed.

Lemma set_map_mod_in_range (n : Z) (hs : gset Z) :
  (forall h, h ∈ hs -> 0 <= h < n) ->
  (set_map (fun h => h `mod` n) hs : gset Z) = hs.
Proof.
  intros Hrange. apply set_eq. intros h. rewrite elem_of_map. split.
  - intros (h' & -> & Hh'). rewrite Z.mod_small by (by apply Hrange). done.
  - intros Hh. exists h. split; [|done].
    rewrite Z.mod_small by (by apply Hrange). done.
Qed.

(** C6, amended: [get_find_pruneable_heads_and_indices] hands out the
    library function when the import succeeds and the fallback when the
    import raises [ImportError]. Whenever the fallback returns, for a
    [heads] list whose members that are not already pruned are not
    negative, it returns [set(heads) - already_pruned_heads] together with
    the flat positions of the heads outside that set: head after head, in
    increasing order,
    [(n_heads - |set(heads) - already_pruned_heads|) * head_dim] of them;
    the heads of the set then lie in [0, n_heads). *)
Theorem fallback_finds_the_kept_positions :
  (forall f : pruner, get_find_pruneable_heads_and_indices (Ok f) = Ok f) /\
  (forall e : exc,
      isinstance e "ImportError" = true ->
      get_find_pruneable_heads_and_indices (Raise e)
      = Ok find_pruneable_heads_and_indices) /\
  forall (heads : list Z) (n_heads head_dim : Z) (already_pruned_heads : gset Z)
         (heads_to_prune : gset Z) (index : list Z),
    find_pruneable_heads_and_indices heads n_heads head_dim
      already_pruned_heads = Ok (heads_to_prune, index) ->
    (forall h, h ∈ heads -> h ∉ already_pruned_heads -> 0 <= h) ->
    heads_to_prune = list_to_set heads ∖ already_pruned_heads /\
    (forall h, h ∈ heads_to_prune -> 0 <= h < n_heads) /\
    index = kept_positions n_heads head_dim heads_to_prune /\
    (forall i, i ∈ index <->
       exists h, 0 <= h < n_heads /\ (h ∉ heads_to_prune) /\
                 h * head_dim <= i < h * head_dim + head_dim) /\
    StronglySorted Z.lt index /\
    Z.of_nat (length index)
    = (n_heads - Z.of_nat (size heads_to_prune)) * head_dim.
Proof.
  split; [done|]. split; [by intros e; simpl; intros ->|].
  intros heads n d pruned hp index Hrun Hpos.
  apply fallback_ok_inv in Hrun
    as (Hn & Hd & Hhp & Hrange & Hindex & Hsorted).
  assert (Hin : forall h, h ∈ hp -> 0 <= h < n).
  { intros h Hh. pose proof (Hrange h Hh) as Hr. split; [|lia].
    rewrite Hhp in Hh. set_unfold in Hh. destruct Hh as [? ?].
    by apply Hpos. }
  rewrite set_map_mod_in_range in Hindex by done.
  split; [done|]. split; [done|]. split; [done|].
  split; [rewrite Hindex; apply elem_of_kept_positions|].
  split; [done|].
  rewrite Hindex. unfold kept_positions. rewrite length_kept_blocks.
  pose proof (length_not_pruned n hp Hin). nia.
Qed.

(** Heads 1 and 3 of four heads of width 2, head 3 pruned before. *)
Lemma fallback_finds_the_kept_positions_witness :
  exists index : list Z,
    find_pruneable_heads_and_indices [1; 3] 4 2 {[3]}
    = Ok (list_to_set [1; 3] ∖ {[3]}, index) /\
    index = [0; 1; 4; 5; 6; 7].
Proof.
  assert (Hrun : find_pruneable_heads_and_indices [1; 3] 4 2 {[3]}
                 = Ok (list_to_set [1; 3] ∖ {[3]}, [0; 1; 4; 5; 6; 7]))
    by (vm_compute; reflexivity).
  destruct fallback_finds_the_kept_positions as (_ & _ & Hfallback).
  destruct (Hfallback [1; 3] 4 2 {[3]} _ _ Hrun) as (_ & _ & Hindex & _).
  - intros h Hh _. set_unfold in Hh. lia.
  - eexists. split; [exact Hrun|]. reflexivity.
Defined.

(** C6 as stated fails for a head outside [0, n_heads): indexing the mask
    raises and nothing is returned. *)
Lemma fallback_raises_out_of_range :
  find_pruneable_heads_and_indices [5] 2 1 ∅ = Raise (IndexError 5 2) /\
  ~ exists index,
      find_pruneable_heads_and_indices [5] 2 1 ∅
      = Ok (list_to_set [5] ∖ ∅, index).
Proof.
  assert (H : find_pruneable_heads_and_indices [5] 2 1 ∅
              = Raise (IndexError 5 2)) by (vm_compute; reflexivity).
  split; [exact H|]. intros [index Hindex]. rewrite Hindex in H. discriminate.
Qed.

(** A negative head counts from the end: the last head loses its
    positions although it is not in the returned set. *)
Example fallback_negative_head :
  snd <$> (match find_pruneable_heads_and_indices [-1] 2 1 ∅ with
           | Ok r => Some r
           | Raise _ => None
           end) = Some [0]
  /\ kept_positions 2 1 (list_to_set [-1] ∖ ∅) = [0; 1].
Proof. split; vm_compute; reflexivity. Qed.

End CompatFacts.

(** ** How the node runs *)

Section LoaderRuns.

Import ModelLoader.

Variable C : collaborators.

Implicit Types (w : world) (e : exc) (lines : list string).

(** [for line in lines: print(line)], as one step. *)
Lemma print_run line w :
  print line w = (Ok tt, mkWorld (trace w ++ [Console line]) (store w)).
Proof. reflexivity. Qed.

Lemma progress_callback_run current total w :
  progress_callback current total w
  = (Ok tt, mkWorld (trace w ++ [ProgressBar_update_absolute current]) (store w)).
Proof. reflexivity. Qed.

Lemma for_each_progress_run (calls : list (pyval * pyval)) : forall w,
  for_each (fun ct => progress_callback (fst ct) (snd ct)) calls w
  = (Ok tt, mkWorld (trace w ++ progress_updates calls) (store w)).
Proof.
  induction calls as [|[current total] calls IH]; intros [t h]; simpl.
  - unfold ret. simpl. by rewrite app_nil_r.
  - unfold bind. rewrite progress_callback_run, IH. simpl.
    by rewrite <- app_assoc.
Qed.

Lemma call_load_model_run variant lm fa fr w :
  call_load_model C variant lm fa fr progress_callback w
  = let o := load_model C variant lm fa fr (store w) in
    let t := trace w ++ [Call_load_model variant lm fa fr]
                     ++ progress_updates (lo_progress o) in
    match lo_result o with
    | Ok (l, d) => (Ok l, mkWorld t (<[l := d]> (lo_store o)))
    | Raise e => (Raise e, mkWorld t (lo_store o))
    end.
Proof.
  unfold call_load_model, bind, emit. simpl.
  rewrite for_each_progress_run. simpl. rewrite <- app_assoc. simpl.
  by destruct (lo_result _) as [[l d]|e].
Qed.

Lemma log_banner_run variant resolved info w :
  log_banner variant resolved info w
  = (Ok tt, mkWorld (trace w ++ (Console <$> banner_lines variant resolved info))
                    (store w)).
Proof.
  destruct w as [t h]. unfold log_banner, banner_lines, bind, print, emit.
  simpl. repeat rewrite <- app_assoc. simpl.
  destruct (ultra_low_mem resolved), (low_mem resolved); simpl;
    by repeat rewrite <- app_assoc.
Qed.

Lemma on_exception_run variant e w :
  on_exception variant e w
  = (Raise e, mkWorld (trace w ++ (Console <$> error_lines variant e)) (store w)).
Proof.
  destruct w as [t h]. unfold on_exception, error_lines.
  destruct (isinstance e "FileNotFoundError").
  - unfold hint_lines, bind, print, emit, raise. simpl.
    by repeat rewrite <- app_assoc.
  - destruct (isinstance e "Exception").
    + unfold bind, print, emit, raise. simpl. done.
    + unfold raise. simpl. by rewrite app_nil_r.
Qed.

(** The [try] statement, from the progress bar to the return or the
    re-raise. *)
Lemma try_statement_run variant resolved force_reload w :
  try_except (try_body C variant resolved force_reload) (on_exception variant) w
  = let lm := low_mem resolved || ultra_low_mem resolved in
    let o := load_model C variant lm false force_reload (store w) in
    let t := trace w
             ++ [ProgressBar_init 4; Call_load_model variant lm false force_reload]
             ++ progress_updates (lo_progress o) in
    match lo_result o with
    | Ok (l, d) =>
        (Ok [VRef l],
         mkWorld (t ++ [Console "[FL SongGen] Model loaded successfully!"])
                 (<[l := <["ultra_low_mem" := VBool (ultra_low_mem resolved)]> d]>
                    (lo_store o)))
    | Raise e =>
        (Raise e,
         mkWorld (t ++ (Console <$> error_lines variant e)) (lo_store o))
    end.
Proof.
  unfold try_except, try_body. unfold bind at 1. unfold emit at 1.
  unfold bind at 1. rewrite call_load_model_run. simpl.
  destruct (lo_result _) as [[l d]|e]; simpl.
  - unfold bind, dict_setitem, print, emit, ret. simpl.
    rewrite alter_insert_eq. by repeat rewrite <- app_assoc.
  - rewrite on_exception_run. simpl. by repeat rewrite <- app_assoc.
Qed.

Lemma node_run variant memory_mode force_reload w :
  FL_SongGen_ModelLoader_load_model C variant memory_mode force_reload w
  = match prelude C variant memory_mode w with
    | (Ok resolved, w1) =>
        try_except (try_body C variant resolved force_reload)
                   (on_exception variant) w1
    | (Raise e, w1) => (Raise e, w1)
    end.
Proof.
  unfold FL_SongGen_ModelLoader_load_model, prelude. unfold bind at 1 5.
  destruct (resolve_memory_mode C variant memory_mode w) as [[r|e] w1];
    [|done].
  unfold bind at 1 4. destruct (emit _ w1) as [[[]|e] w2]; [|done].
  unfold bind at 1 3.
  destruct (answer (get_variant_info C variant) w2) as [[info|e] w3]; [|done].
  unfold bind. by destruct (log_banner variant r info w3) as [[[]|e] w4].
Qed.

Lemma resolve_memory_mode_auto variant w :
  resolve_memory_mode C variant "auto" w
  = match get_recommended_memory_mode C variant with
    | Raise e =>
        (Raise e,
         mkWorld (trace w ++ [Call_get_recommended_memory_mode variant]) (store w))
    | Ok resolved =>
        match get_available_vram_gb C with
        | Raise e =>
            (Raise e,
             mkWorld (trace w ++ [Call_get_recommended_memory_mode variant;
                                  Call_get_available_vram_gb]) (store w))
        | Ok vram =>
            (Ok resolved,
             mkWorld (trace w ++
                      [Call_get_recommended_memory_mode variant;
                       Call_get_available_vram_gb;
                       Console ("[FL SongGen] Auto-detected memory mode: "
                                +:+ resolved +:+ " (available VRAM: "
                                +:+ num_format_1f vram +:+ "GB)")])
                     (store w))
        end
    end.
Proof.
  destruct w as [t h]. unfold resolve_memory_mode. simpl.
  unfold bind, emit, answer, print, emit, ret. simpl.
  destruct (get_recommended_memory_mode C variant) as [r|e]; [|done].
  destruct (get_available_vram_gb C) as [vram|e]; simpl;
    by repeat rewrite <- app_assoc.
Qed.

Lemma resolve_memory_mode_given variant memory_mode w :
  memory_mode <> "auto" ->
  resolve_memory_mode C variant memory_mode w = (Ok memory_mode, w).
Proof.
  intros Hne. unfold resolve_memory_mode.
  destruct (String.eqb_spec memory_mode "auto"); done.
Qed.

(** The part before the [try], given the resolved mode. *)
Lemma prelude_after_resolve variant memory_mode w :
  prelude C variant memory_mode w
  = match resolve_memory_mode C variant memory_mode w with
    | (Raise e, w1) => (Raise e, w1)
    | (Ok resolved, w1) =>
        match get_variant_info C variant with
        | Raise e =>
            (Raise e,
             mkWorld (trace w1 ++ [Call_get_variant_info variant]) (store w1))
        | Ok info =>
            (Ok resolved,
             mkWorld (trace w1 ++ [Call_get_variant_info variant]
                      ++ (Console <$> banner_lines variant resolved info))
                     (store w1))
        end
    end.
Proof.
  unfold prelude. unfold bind at 1.
  destruct (resolve_memory_mode C variant memory_mode w) as [[r|e] [t h]];
    [|done].
  unfold bind at 1. unfold emit at 1. simpl. unfold bind at 1.
  unfold answer at 1. destruct (get_variant_info C variant) as [info|e];
    [|done].
  unfold bind. rewrite log_banner_run. unfold ret. simpl.
  by rewrite <- app_assoc.
Qed.

End LoaderRuns.

(** ** Properties of the node *)

(** A property of events that holds of every event of a trace written
    out as a concatenation. *)
Ltac events_all :=
  repeat first
    [ apply Forall_nil_2
    | apply Forall_cons; split; [reflexivity|]
    | apply Forall_app; split
    | apply Forall_fmap, Forall_true; intros ?; reflexivity ].

Section LoaderClaims.

Import ModelLoader.

Implicit Types (C : collaborators) (w : world) (e : exc).

(** What is known once the loading step is reached. *)
Lemma prelude_ok_inv C variant memory_mode w resolved w1 :
  prelude C variant memory_mode w = (Ok resolved, w1) ->
  store w1 = store w /\
  exists info, get_variant_info C variant = Ok info /\
    ((memory_mode = "auto" /\
      get_recommended_memory_mode C variant = Ok resolved /\
      exists vram, get_available_vram_gb C = Ok vram /\
        trace w1 = trace w ++
          [Call_get_recommended_memory_mode variant;
           Call_get_available_vram_gb;
           Console ("[FL SongGen] Auto-detected memory mode: "
                    +:+ resolved +:+ " (available VRAM: "
                    +:+ num_format_1f vram +:+ "GB)");
           Call_get_variant_info variant]
          ++ (Console <$> banner_lines variant resolved info))
     \/
     (memory_mode <> "auto" /\ resolved = memory_mode /\
      trace w1 = trace w ++ [Call_get_variant_info variant]
                 ++ (Console <$> banner_lines variant resolved info))).
Proof.
  rewrite prelude_after_resolve.
  destruct (decide (memory_mode = "auto")) as [->|Hne].
  - rewrite resolve_memory_mode_auto.
    destruct (get_recommended_memory_mode C variant) as [r|]; [|discriminate].
    destruct (get_available_vram_gb C) as [vram|]; [|discriminate].
    destruct (get_variant_info C variant) as [info|]; [|discriminate].
    simpl. intros [= <- <-]. simpl. split; [done|].
    exists info. split; [done|]. left. split; [done|]. split; [done|].
    exists vram. split; [done|]. by rewrite <- app_assoc.
  - rewrite resolve_memory_mode_given by done.
    destruct (get_variant_info C variant) as [info|]; [|discriminate].
    intros [= <- <-]. simpl. split; [done|].
    exists info. split; [done|]. right. done.
Qed.

(** The loading step is reached when the collaborators asked before it
    answer. *)
Lemma prelude_reaches C variant memory_mode w info :
  get_variant_info C variant = Ok info ->
  (memory_mode = "auto" ->
   exists resolved vram,
     get_recommended_memory_mode C variant = Ok resolved /\
     get_available_vram_gb C = Ok vram) ->
  exists resolved w1, prelude C variant memory_mode w = (Ok resolved, w1).
Proof.
  intros Hinfo Hauto. rewrite prelude_after_resolve.
  destruct (decide (memory_mode = "auto")) as [->|Hne].
  - destruct (Hauto eq_refl) as (r & vram & Hr & Hv).
    rewrite resolve_memory_mode_auto, Hr, Hv, Hinfo. eauto.
  - rewrite resolve_memory_mode_given, Hinfo by done. eauto.
Qed.

Lemma flags_or resolved :
  low_mem resolved || ultra_low_mem resolved
  = bool_decide (resolved ∈ ["low"; "low_mem"; "ultra"; "ultra_low_mem"]).
Proof.
  unfold low_mem, ultra_low_mem. rewrite <- bool_decide_or.
  apply bool_decide_ext. set_unfold. tauto.
Qed.

Lemma none_recommended (new : list event) :
  Forall (fun ev => is_recommended_call ev = false) new ->
  forall v, Call_get_recommended_memory_mode v ∉ new.
Proof.
  intros Hall v Hv. rewrite Forall_forall in Hall. by apply Hall in Hv.
Qed.

(** The whole invocation once the loading step is reached. *)
Lemma node_after_prelude C variant memory_mode force_reload w resolved w1 :
  prelude C variant memory_mode w = (Ok resolved, w1) ->
  FL_SongGen_ModelLoader_load_model C variant memory_mode force_reload w
  = let lm := low_mem resolved || ultra_low_mem resolved in
    let o := load_model C variant lm false force_reload (store w1) in
    let t := trace w1
             ++ [ProgressBar_init 4; Call_load_model variant lm false force_reload]
             ++ progress_updates (lo_progress o) in
    match lo_result o with
    | Ok (l, d) =>
        (Ok [VRef l],
         mkWorld (t ++ [Console "[FL SongGen] Model loaded successfully!"])
                 (<[l := <["ultra_low_mem" := VBool (ultra_low_mem resolved)]> d]>
                    (lo_store o)))
    | Raise e =>
        (Raise e,
         mkWorld (t ++ (Console <$> error_lines variant e)) (lo_store o))
    end.
Proof. intros Hpre. by rewrite node_run, Hpre, try_statement_run. Qed.

Lemma prelude_events C variant memory_mode w resolved w1 :
  prelude C variant memory_mode w = (Ok resolved, w1) ->
  exists pre, trace w1 = trace w ++ pre /\
    Forall (fun ev => is_load_call ev = false) pre /\
    Forall (fun ev => is_progress_event ev = false) pre.
Proof.
  intros (_ & info & _ & [(_ & _ & vram & _ & ->)|(_ & _ & ->)])%prelude_ok_inv;
    eexists; (split; [reflexivity|]); split; events_all.
Qed.

Lemma memory_mode_line_in_banner variant resolved info :
  Console ("Memory Mode: " +:+ resolved)
  ∈ Console <$> banner_lines variant resolved info.
Proof.
  apply list_elem_of_fmap. exists ("Memory Mode: " +:+ resolved).
  split; [done|]. unfold banner_lines.
  do 7 apply list_elem_of_further. apply list_elem_of_here.
Qed.

Ltac find_event :=
  first [ apply memory_mode_line_in_banner
        | apply list_elem_of_here
        | apply list_elem_of_further; find_event
        | apply elem_of_app; left; find_event
        | apply elem_of_app; right; find_event ].

(** C3: with [memory_mode = "auto"] the node first asks
    [get_recommended_memory_mode(model_variant)]; what that raises comes
    out of the node, and what it returns is the mode named in the line of
    the automatic detection. With any other [memory_mode] the whole
    invocation never calls it. In a run that reaches the loading step the
    resolved mode is what [get_recommended_memory_mode(model_variant)]
    returned if [memory_mode = "auto"] and [memory_mode] itself otherwise,
    and it is this mode that the node prints as ["Memory Mode: ..."] and
    whose flags it hands to the collaborator [load_model]. (Where the
    available memory is formatted, it is taken to be a number that [.1f]
    shows as the model does.) *)
Theorem memory_mode_is_resolved :
  forall C (model_variant memory_mode : string) (force_reload : bool) w,
    let run := FL_SongGen_ModelLoader_load_model C model_variant memory_mode
                 force_reload w in
    (memory_mode = "auto" ->
     (exists rest,
         trace (snd run)
         = trace w ++ Call_get_recommended_memory_mode model_variant :: rest) /\
     (forall e,
         get_recommended_memory_mode C model_variant = Raise e ->
         fst run = Raise e) /\
     (forall resolved vram,
         vram_formats_exactly C ->
         get_recommended_memory_mode C model_variant = Ok resolved ->
         get_available_vram_gb C = Ok vram ->
         exists rest,
           trace (snd run)
           = trace w
             ++ [Call_get_recommended_memory_mode model_variant;
                 Call_get_available_vram_gb;
                 Console ("[FL SongGen] Auto-detected memory mode: "
                          +:+ resolved +:+ " (available VRAM: "
                          +:+ num_format_1f vram +:+ "GB)")]
             ++ rest)) /\
    (memory_mode <> "auto" ->
     exists new,
       trace (snd run) = trace w ++ new /\
       forall v, Call_get_recommended_memory_mode v ∉ new) /\
    (forall resolved w1,
        vram_formats_exactly C ->
        prelude C model_variant memory_mode w = (Ok resolved, w1) ->
        (memory_mode = "auto" ->
         get_recommended_memory_mode C model_variant = Ok resolved) /\
        (memory_mode <> "auto" -> resolved = memory_mode) /\
        exists new,
          trace (snd run) = trace w ++ new /\
          Console ("Memory Mode: " +:+ resolved) ∈ new /\
          Call_load_model model_variant
            (low_mem resolved || ultra_low_mem resolved) false force_reload
          ∈ new).
Proof.
  intros C variant memory_mode force_reload w run. subst run.
  split; [|split].
  - intros ->.
    rewrite node_run, prelude_after_resolve, resolve_memory_mode_auto.
    destruct (get_recommended_memory_mode C variant) as [r|e0].
    + split; [|split; [discriminate|]].
      * destruct (get_available_vram_gb C) as [vram|e1];
          [destruct (get_variant_info C variant) as [info|e2]|].
        -- rewrite try_statement_run. cbv zeta. cbn [trace store].
           destruct (lo_result _) as [[l d]|e]; cbn [snd trace];
             eexists; repeat (rewrite <- app_assoc; simpl); reflexivity.
        -- cbn [snd trace]. eexists.
           repeat (rewrite <- app_assoc; simpl); reflexivity.
        -- cbn [snd trace]. eexists. reflexivity.
      * intros resolved vram _ [= <-] ->.
        destruct (get_variant_info C variant) as [info|e2].
        -- rewrite try_statement_run. cbv zeta. cbn [trace store].
           destruct (lo_result _) as [[l d]|e]; cbn [snd trace];
             eexists; repeat (rewrite <- app_assoc; simpl); reflexivity.
        -- cbn [snd trace]. eexists.
           repeat (rewrite <- app_assoc; simpl); reflexivity.
    + split; [by eexists|]. split; [by intros e [= ->]|]. discriminate.
  - intros Hne.
    rewrite node_run, prelude_after_resolve, resolve_memory_mode_given by done.
    destruct (get_variant_info C variant) as [info|e].
    + rewrite try_statement_run. cbv zeta. cbn [trace store].
      destruct (lo_result _) as [[l d]|e]; cbn [snd trace];
        eexists; (split; [by repeat rewrite <- app_assoc|]);
        apply none_recommended; events_all.
    + cbn [snd trace]. eexists. split; [done|].
      apply none_recommended; events_all.
  - intros resolved w1 _ Hpre.
    destruct (prelude_ok_inv _ _ _ _ _ _ Hpre)
      as (_ & info & _ & Hcases).
    split; [|split].
    + intros ->. by destruct Hcases as [(_ & Hrec & _)|(Hne & _)].
    + intros Hne. by destruct Hcases as [(Heq & _)|(_ & -> & _)].
    + rewrite (node_after_prelude _ _ _ _ _ _ _ Hpre). cbv zeta.
      assert (Hw1 : exists pre,
                 trace w1 = trace w ++ pre
                            ++ (Console <$> banner_lines variant resolved info)).
      { destruct Hcases as [(_ & _ & vram & _ & ->)|(_ & _ & ->)].
        - eexists [_; _; _; _]. reflexivity.
        - eexists [_]. reflexivity. }
      destruct Hw1 as [pre ->].
      destruct (lo_result _) as [[l d]|e]; cbn [snd trace];
        eexists; (split; [by repeat rewrite <- app_assoc|]);
        split; find_event.
Qed.

(** On a machine for which ["ultra"] is recommended. *)
Lemma memory_mode_is_resolved_witness :
  get_recommended_memory_mode
    (sample_collaborators (Ok (5%nat, sample_model_info)))
    "songgeneration_base_new" = Ok "ultra" /\
  exists new,
    trace (snd (FL_SongGen_ModelLoader_load_model
                  (sample_collaborators (Ok (5%nat, sample_model_info)))
                  "songgeneration_base_new" "auto" false empty_world))
    = trace empty_world ++ new /\
    Console ("Memory Mode: " +:+ "ultra") ∈ new /\
    Call_load_model "songgeneration_base_new"
      (low_mem "ultra" || ultra_low_mem "ultra") false false ∈ new.
Proof.
  assert (Hpre : prelude (sample_collaborators (Ok (5%nat, sample_model_info)))
                   "songgeneration_base_new" "auto" empty_world
                 = (Ok "ultra",
                    snd (prelude
                           (sample_collaborators (Ok (5%nat, sample_model_info)))
                           "songgeneration_base_new" "auto" empty_world)))
    by (vm_compute; reflexivity).
  assert (Hvram : vram_formats_exactly
                    (sample_collaborators (Ok (5%nat, sample_model_info))))
    by (intros z Hz; discriminate Hz).
  destruct (memory_mode_is_resolved
              (sample_collaborators (Ok (5%nat, sample_model_info)))
              "songgeneration_base_new" "auto" false empty_world)
    as (_ & _ & Hrun).
  destruct (Hrun "ultra" _ Hvram Hpre) as (Hauto & _ & new & Ht & Hc & Hl).
  split; [exact (Hauto eq_refl)|]. exists new.
  split; [exact Ht|]. split; [exact Hc|exact Hl].
Defined.

(** C2: once the loading step is reached, the one call of the collaborator
    [load_model] in the invocation has [low_mem] true exactly for the
    resolved modes ["low"], ["low_mem"], ["ultra"] and ["ultra_low_mem"]
    (so for ["ultra"]), with [use_flash_attn=False] and the given
    [force_reload]; and the dictionary it returns gets
    ["ultra_low_mem"] set to [True] exactly for ["ultra"] and
    ["ultra_low_mem"], to [False] otherwise. *)
Theorem memory_mode_sets_the_flags :
  forall C (model_variant memory_mode : string) (force_reload : bool)
         w resolved w1,
    prelude C model_variant memory_mode w = (Ok resolved, w1) ->
    let lm := bool_decide (resolved ∈ ["low"; "low_mem"; "ultra"; "ultra_low_mem"]) in
    let ultra := bool_decide (resolved ∈ ["ultra"; "ultra_low_mem"]) in
    let o := load_model C model_variant lm false force_reload (store w1) in
    let run := FL_SongGen_ModelLoader_load_model C model_variant memory_mode
                 force_reload w in
    (resolved = "ultra" -> lm = true) /\
    (exists before after,
        trace (snd run)
        = trace w ++ before
          ++ [Call_load_model model_variant lm false force_reload] ++ after /\
        Forall (fun ev => is_load_call ev = false) before /\
        Forall (fun ev => is_load_call ev = false) after) /\
    (forall l d,
        lo_result o = Ok (l, d) ->
        fst run = Ok [VRef l] /\
        store (snd run) !! l = Some (<["ultra_low_mem" := VBool ultra]> d)).
Proof.
  intros C variant memory_mode force_reload w resolved w1 Hpre lm ultra o run.
  split; [by intros ->|].
  subst run o ultra lm.
  rewrite (node_after_prelude _ _ _ _ _ _ _ Hpre). cbv zeta.
  rewrite flags_or.
  destruct (prelude_events _ _ _ _ _ _ Hpre) as (pre & -> & Hpre_load & _).
  split.
  - exists (pre ++ [ProgressBar_init 4]).
    destruct (lo_result _) as [[l d]|e]; cbn [snd trace];
      eexists; (split; [by repeat (rewrite <- app_assoc; simpl)|]);
      split; events_all; done.
  - intros l d ->. cbn [fst snd store]. split; [done|].
    by rewrite lookup_insert_eq.
Qed.

(** Asked for ["ultra"], the sample loader is called with [low_mem=True]
    and its dictionary is marked. *)
Lemma memory_mode_sets_the_flags_witness :
  let run := FL_SongGen_ModelLoader_load_model
               (sample_collaborators (Ok (5%nat, sample_model_info)))
               "songgeneration_base_new" "ultra" false empty_world in
  fst run = Ok [VRef 5%nat] /\
  store (snd run) !! 5%nat
  = Some (<["ultra_low_mem" := VBool true]> sample_model_info).
Proof.
  pose proof (memory_mode_sets_the_flags
                (sample_collaborators (Ok (5%nat, sample_model_info)))
                "songgeneration_base_new" "ultra" false empty_world "ultra"
                _ eq_refl) as (_ & _ & Hdict).
  exact (Hdict 5%nat sample_model_info eq_refl).
Defined.

(** C1, amended: when the collaborator [load_model] raises [e], the node
    raises that same [e] and returns nothing. What it prints after the
    call depends on the class of [e] alone: for a [FileNotFoundError] the
    hint (with the expected location [ComfyUI/models/songgen/<variant>/]
    and the required files), for any other instance of [Exception] one
    line with [str(e)], and for an exception that is not an instance of
    [Exception] nothing. *)
Theorem load_model_exception_is_reraised :
  forall C (model_variant memory_mode : string) (force_reload : bool)
         w resolved w1 e,
    prelude C model_variant memory_mode w = (Ok resolved, w1) ->
    let o := load_model C model_variant
               (low_mem resolved || ultra_low_mem resolved) false force_reload
               (store w1) in
    lo_result o = Raise e ->
    let run := FL_SongGen_ModelLoader_load_model C model_variant memory_mode
                 force_reload w in
    fst run = Raise e /\
    store (snd run) = lo_store o /\
    exists logged : list string,
      trace (snd run)
      = trace w1
        ++ [ProgressBar_init 4;
            Call_load_model model_variant
              (low_mem resolved || ultra_low_mem resolved) false force_reload]
        ++ progress_updates (lo_progress o)
        ++ (Console <$> logged) /\
      (isinstance e "FileNotFoundError" = true ->
       logged = hint_lines model_variant /\
       (nl +:+ "Expected location: ComfyUI/models/songgen/"
           +:+ model_variant +:+ "/") ∈ logged /\
       "Required files: config.yaml, model.pt" ∈ logged) /\
      (isinstance e "FileNotFoundError" = false ->
       isinstance e "Exception" = true ->
       logged = ["[FL SongGen] ERROR loading model: " +:+ exc_str e]) /\
      (isinstance e "FileNotFoundError" = false ->
       isinstance e "Exception" = false ->
       logged = []).
Proof.
  intros C variant memory_mode force_reload w resolved w1 e Hpre o He run.
  subst run. rewrite (node_after_prelude _ _ _ _ _ _ _ Hpre). cbv zeta.
  fold o. rewrite He. cbn [fst snd trace store].
  split; [done|]. split; [done|].
  exists (error_lines variant e). split; [by repeat rewrite <- app_assoc|].
  unfold error_lines. split; [|split].
  - intros ->. split; [done|]. unfold hint_lines. set_solver.
  - by intros -> ->.
  - by intros -> ->.
Qed.

(** A missing [model.pt]: the same exception comes out, and the store is
    as the collaborator left it. *)
Lemma load_model_exception_is_reraised_witness :
  let run := FL_SongGen_ModelLoader_load_model
               (sample_collaborators (Raise sample_file_not_found))
               "songgeneration_base_new" "auto" false empty_world in
  fst run = Raise sample_file_not_found /\ store (snd run) = ∅.
Proof.
  assert (Hpre : prelude (sample_collaborators (Raise sample_file_not_found))
                   "songgeneration_base_new" "auto" empty_world
                 = (Ok "ultra",
                    snd (prelude (sample_collaborators (Raise sample_file_not_found))
                           "songgeneration_base_new" "auto" empty_world)))
    by (vm_compute; reflexivity).
  destruct (load_model_exception_is_reraised
              (sample_collaborators (Raise sample_file_not_found))
              "songgeneration_base_new" "auto" false empty_world "ultra"
              _ sample_file_not_found Hpre eq_refl)
    as (Hraise & Hstore & _).
  split; [exact Hraise|]. rewrite Hstore.
  apply (proj1 (prelude_ok_inv _ _ _ _ _ _ Hpre)).
Defined.

(** C1 as stated fails for an exception outside [Exception]: a
    [KeyboardInterrupt] raised while loading is re-raised without a word;
    the console shows the banner and nothing else, and the last thing the
    node did is the last progress update. *)
Lemma keyboard_interrupt_is_not_logged :
  let run := FL_SongGen_ModelLoader_load_model
               (sample_collaborators (Raise sample_keyboard_interrupt))
               "songgeneration_base_new" "normal" false empty_world in
  fst run = Raise sample_keyboard_interrupt /\
  last (trace (snd run)) = Some (ProgressBar_update_absolute (VInt 4)) /\
  console_lines (trace (snd run))
  = banner_lines "songgeneration_base_new" "normal" sample_info.
Proof. cbv zeta. split; [|split]; vm_compute; reflexivity. Qed.

(** The node returns only when the loading step was reached and the
    collaborator returned. *)
Lemma node_ok_inv C variant memory_mode force_reload w ret w' :
  FL_SongGen_ModelLoader_load_model C variant memory_mode force_reload w
  = (Ok ret, w') ->
  exists resolved w1 l d,
    prelude C variant memory_mode w = (Ok resolved, w1) /\
    lo_result (load_model C variant
                 (low_mem resolved || ultra_low_mem resolved) false
                 force_reload (store w1)) = Ok (l, d).
Proof.
  rewrite node_run.
  destruct (prelude C variant memory_mode w) as [[resolved|e] w1];
    [|discriminate].
  rewrite try_statement_run. cbv zeta.
  destruct (lo_result _) as [[l d]|e] eqn:Hres; [|discriminate].
  intros _. by exists resolved, w1, l, d.
Qed.

(** C5: the output slot is declared ["SONGGEN_MODEL"], and a successful
    invocation returns a one-element tuple holding the very dictionary the
    collaborator [load_model] returned, changed in place at the key
    ["ultra_low_mem"] and nowhere else; no other object of the store is
    touched. *)
Theorem load_model_returns_the_marked_dict :
  RETURN_TYPES = ["SONGGEN_MODEL"] /\
  forall C (model_variant memory_mode : string) (force_reload : bool)
         w ret w',
    FL_SongGen_ModelLoader_load_model C model_variant memory_mode
      force_reload w = (Ok ret, w') ->
    exists resolved w1 l d,
      prelude C model_variant memory_mode w = (Ok resolved, w1) /\
      let o := load_model C model_variant
                 (low_mem resolved || ultra_low_mem resolved) false
                 force_reload (store w1) in
      lo_result o = Ok (l, d) /\
      ret = [VRef l] /\
      (exists d', store w' !! l = Some d' /\
         d' !! "ultra_low_mem" = Some (VBool (ultra_low_mem resolved)) /\
         (forall k, k <> "ultra_low_mem" -> d' !! k = d !! k) /\
         d' = <["ultra_low_mem" := VBool (ultra_low_mem resolved)]> d) /\
      (forall l', l' <> l -> store w' !! l' = lo_store o !! l').
Proof.
  split; [reflexivity|].
  intros C variant memory_mode force_reload w ret w' Hrun.
  destruct (node_ok_inv _ _ _ _ _ _ _ Hrun) as (resolved & w1 & l & d & Hpre & Hres).
  exists resolved, w1, l, d. split; [done|]. cbv zeta. split; [done|].
  rewrite (node_after_prelude _ _ _ _ _ _ _ Hpre) in Hrun. cbv zeta in Hrun.
  rewrite Hres in Hrun. injection Hrun as <- <-. cbn [store].
  split; [done|]. split.
  - eexists. split; [apply lookup_insert_eq|].
    split; [apply lookup_insert_eq|]. split; [|done].
    intros k Hk. by apply lookup_insert_ne.
  - intros l' Hl'. by apply lookup_insert_ne.
Qed.

(** The sample loader's dictionary comes back with one more key. *)
Lemma load_model_returns_the_marked_dict_witness :
  exists w1 d',
    store (snd (FL_SongGen_ModelLoader_load_model
                  (sample_collaborators (Ok (5%nat, sample_model_info)))
                  "songgeneration_base_new" "low" true empty_world)) !! 5%nat
    = Some d' /\
    prelude (sample_collaborators (Ok (5%nat, sample_model_info)))
      "songgeneration_base_new" "low" empty_world = (Ok "low", w1) /\
    d' !! "ultra_low_mem" = Some (VBool false) /\
    d' !! "model" = Some (VRef 7%nat).
Proof.
  destruct load_model_returns_the_marked_dict as [_ Hnode].
  destruct (Hnode (sample_collaborators (Ok (5%nat, sample_model_info)))
              "songgeneration_base_new" "low" true empty_world
              [VRef 5%nat]
              (snd (FL_SongGen_ModelLoader_load_model
                      (sample_collaborators (Ok (5%nat, sample_model_info)))
                      "songgeneration_base_new" "low" true empty_world)))
    as (resolved & w1 & l & d & Hpre & Hres & Hret & (d' & Hd' & Hkey & Hother & _) & _).
  { vm_compute. reflexivity. }
  injection Hret as <-.
  destruct (prelude_ok_inv _ _ _ _ _ _ Hpre)
    as (_ & _ & _ & [(Hauto & _)|(_ & -> & _)]); [discriminate|].
  cbv zeta in Hres. simpl in Hres. injection Hres as <-.
  exists w1, d'. split; [exact Hd'|]. split; [exact Hpre|].
  split; [exact Hkey|]. rewrite Hother by discriminate. reflexivity.
Defined.

(** C7: the callback hands [current] to [ProgressBar.update_absolute] and
    drops [total]; once the loading step is reached the node creates one
    progress bar, with total 4, before it calls the collaborator, and the
    updates of that bar are the [current] arguments of the collaborator's
    calls of the callback, in order. *)
Theorem progress_is_forwarded :
  (forall current total w,
      progress_callback current total w
      = (Ok tt,
         mkWorld (trace w ++ [ProgressBar_update_absolute current]) (store w))) /\
  forall C (model_variant memory_mode : string) (force_reload : bool)
         w resolved w1,
    prelude C model_variant memory_mode w = (Ok resolved, w1) ->
    let lm := low_mem resolved || ultra_low_mem resolved in
    let o := load_model C model_variant lm false force_reload (store w1) in
    exists before after,
      trace (snd (FL_SongGen_ModelLoader_load_model C model_variant
                    memory_mode force_reload w))
      = trace w ++ before
        ++ [ProgressBar_init 4;
            Call_load_model model_variant lm false force_reload]
        ++ ((fun ct => ProgressBar_update_absolute (fst ct)) <$> lo_progress o)
        ++ after /\
      Forall (fun ev => is_progress_event ev = false) before /\
      Forall (fun ev => is_progress_event ev = false) after.
Proof.
  split; [reflexivity|].
  intros C variant memory_mode force_reload w resolved w1 Hpre lm o.
  subst o lm. rewrite (node_after_prelude _ _ _ _ _ _ _ Hpre). cbv zeta.
  destruct (prelude_events _ _ _ _ _ _ Hpre) as (pre & -> & _ & Hpre_progress).
  exists pre. fold (progress_updates
    (lo_progress (load_model C variant (low_mem resolved || ultra_low_mem resolved)
                    false force_reload (store w1)))).
  destruct (lo_result _) as [[l d]|e]; cbn [snd trace];
    eexists; (split; [by repeat (rewrite <- app_assoc; simpl)|]);
    split; events_all; done.
Qed.

(** The sample loader reports four steps; the bar sees 1, 2, 3, 4. *)
Lemma progress_is_forwarded_witness :
  exists before after,
    trace (snd (FL_SongGen_ModelLoader_load_model
                  (sample_collaborators (Ok (5%nat, sample_model_info)))
                  "songgeneration_base_new" "normal" false empty_world))
    = before
      ++ [ProgressBar_init 4;
          Call_load_model "songgeneration_base_new" false false false;
          ProgressBar_update_absolute (VInt 1);
          ProgressBar_update_absolute (VInt 2);
          ProgressBar_update_absolute (VInt 3);
          ProgressBar_update_absolute (VInt 4)]
      ++ after.
Proof.
  assert (Hpre : prelude (sample_collaborators (Ok (5%nat, sample_model_info)))
                   "songgeneration_base_new" "normal" empty_world
                 = (Ok "normal",
                    snd (prelude (sample_collaborators (Ok (5%nat, sample_model_info)))
                           "songgeneration_base_new" "normal" empty_world)))
    by (vm_compute; reflexivity).
  destruct progress_is_forwarded as [_ Hnode].
  destruct (Hnode _ _ _ false _ _ _ Hpre) as (before & after & Htrace & _).
  exists before, after. exact Htrace.
Defined.

End LoaderClaims.

(** ** Further properties of [paths.py] *)

Section MorePathFacts.

Import Paths.

Implicit Types (fs : gmap Path kind) (p q : Path).

Lemma parent_closed_b_sound fs : parent_closed_b fs = true -> parent_closed fs.
Proof.
  unfold parent_closed_b. rewrite forallb_forall. intros Hall p [k Hk].
  apply (Hall (p, k)). by apply list_elem_of_In, elem_of_map_to_list.
Qed.

Lemma no_file_on_rev_false_inv fs a (r : list string) :
  no_file_on_rev fs a r = false ->
  exists l, l `prefix_of` rev r /\ kind_of fs (mkPath a l) = Some File.
Proof.
  induction r as [|x rest IH]; simpl; [done|].
  destruct (kind_of fs (mkPath a (rev rest ++ [x]))) as [[|]|] eqn:Hk.
  - intros _. by exists (rev rest ++ [x]).
  - intros (l & Hl & Hf)%IH. exists l. split; [by apply prefix_app_r|done].
  - intros (l & Hl & Hf)%IH. exists l. split; [by apply prefix_app_r|done].
Qed.

Lemma dir_has_no_file_above fs a (r : list string) :
  parent_closed fs -> kind_of fs (mkPath a (rev r)) = Some Dir ->
  no_file_on_rev fs a r = true.
Proof.
  intros Hpc Hd. destruct (no_file_on_rev fs a r) eqn:Hno; [done|].
  apply no_file_on_rev_false_inv in Hno as (l & Hl & Hf).
  assert (Hdir : is_dir fs (mkPath a (rev r)) = true)
    by (unfold is_dir; by rewrite Hd).
  pose proof (parent_closed_ancestors fs a r Hpc Hdir l Hl) as Hl'.
  unfold is_dir in Hl'. by rewrite Hf in Hl'.
Qed.

(** On a well-formed disk [mkdir_rev], which knows no other failure,
    fails when a regular file sits at the path or above it. *)
Lemma mkdir_rev_raises a (r : list string) : forall fs,
  parent_closed fs -> no_file_on_rev fs a r = false ->
  exists e, mkdir_rev a r fs = Raise e.
Proof.
  induction r as [|x rest IH]; intros fs Hpc; [done|].
  rewrite mkdir_rev_unfold. intros Hno.
  destruct (kind_of fs (mkPath a (rev (x :: rest)))) as [[|]|] eqn:Hk.
  - eauto.
  - by rewrite (dir_has_no_file_above fs a (x :: rest)) in Hno.
  - simpl in Hno, Hk. rewrite Hk in Hno.
    destruct (kind_of fs (mkPath a (rev rest))) as [[|]|] eqn:Hpar.
    + eauto.
    + by rewrite (dir_has_no_file_above fs a rest) in Hno.
    + destruct (IH fs Hpc Hno) as [e ->]. eauto.
Qed.

Lemma mkdir_raises_on_file p fs :
  parent_closed fs -> no_file_on fs p = false ->
  exists e, mkdir p fs = (Raise e, fs).
Proof.
  intros Hpc. unfold no_file_on, mkdir.
  intros [e ->]%mkdir_rev_raises; eauto.
Qed.

(** X1: on a well-formed disk, for paths without [".."], a regular file
    at [models/songgen] or above it makes [get_songgen_models_dir] raise,
    and with it [get_model_variant_dir], [check_model_files] and
    [check_checkpoint_files]; the disk is then as before. A regular file
    that blocks only the variant directory makes [get_model_variant_dir]
    and [check_model_files] raise after [models/songgen] was made: that
    directory stays behind. *)
Theorem getters_fail_on_a_file :
  forall (module_file : Path) (variant : string) (fs : gmap Path kind),
    parent_closed fs ->
    let models := songgen_dir module_file in
    let vd := joinpath models variant in
    no_dotdot models = true -> no_dotdot vd = true ->
    (no_file_on fs models = false ->
     exists e,
       get_songgen_models_dir module_file fs = (Raise e, fs) /\
       get_model_variant_dir module_file variant fs = (Raise e, fs) /\
       check_model_files module_file variant fs = (Raise e, fs) /\
       check_checkpoint_files module_file fs = (Raise e, fs)) /\
    (forall p fs1,
        get_songgen_models_dir module_file fs = (Ok p, fs1) ->
        no_file_on fs1 vd = false ->
        is_dir fs1 models = true /\
        exists e,
          get_model_variant_dir module_file variant fs = (Raise e, fs1) /\
          check_model_files module_file variant fs = (Raise e, fs1)).
Proof.
  intros module_file variant fs Hpc models vd _ _. subst models vd. split.
  - intros Hfile.
    apply (mkdir_raises_on_file (songgen_dir module_file) fs Hpc) in Hfile
      as [e He].
    assert (Hget : get_songgen_models_dir module_file fs = (Raise e, fs)).
    { unfold get_songgen_models_dir, bind.
      fold (songgen_dir module_file). by rewrite He. }
    assert (Hvd : get_model_variant_dir module_file variant fs = (Raise e, fs)).
    { unfold get_model_variant_dir. unfold bind at 1. by rewrite Hget. }
    exists e. split; [done|]. split; [done|].
    split; [by apply check_model_files_raise|].
    by apply check_checkpoint_files_raise.
  - intros p fs1 Hd Hfile.
    pose proof (get_songgen_models_dir_inv _ _ _ _ Hd) as [-> Hm].
    split; [by apply mkdir_is_dir with (1 := Hm)|].
    assert (Hpc1 : parent_closed fs1) by (by eapply mkdir_parent_closed).
    apply (mkdir_raises_on_file _ fs1 Hpc1) in Hfile as [e He].
    assert (Hvd : get_model_variant_dir module_file variant fs = (Raise e, fs1)).
    { unfold get_model_variant_dir. unfold bind at 1. rewrite Hd.
      unfold bind. by rewrite He. }
    exists e. split; [done|]. by apply check_model_files_raise.
Qed.

(** With [models] a regular file nothing can be created below it. *)
Lemma getters_fail_on_a_file_witness :
  exists e,
    get_songgen_models_dir sample_module_file sample_fs_models_is_file
    = (Raise e, sample_fs_models_is_file) /\
    check_model_files sample_module_file "any" sample_fs_models_is_file
    = (Raise e, sample_fs_models_is_file).
Proof.
  assert (Hpc : parent_closed sample_fs_models_is_file)
    by (apply parent_closed_b_sound; vm_compute; reflexivity).
  assert (Hfile : no_file_on sample_fs_models_is_file
                    (songgen_dir sample_module_file) = false)
    by (vm_compute; reflexivity).
  destruct (getters_fail_on_a_file sample_module_file "any"
              sample_fs_models_is_file Hpc eq_refl eq_refl) as (Hraise & _).
  destruct (Hraise Hfile) as (e & Hget & _ & Hcheck & _).
  exists e. split; [exact Hget|exact Hcheck].
Defined.

(** X2: a second call of [get_model_variant_dir] or [check_model_files]
    in the state the first one left returns the same value and changes
    nothing. *)
Theorem variant_dir_calls_repeat :
  forall (module_file : Path) (variant : string) (fs fs' : gmap Path kind),
    (forall p,
        get_model_variant_dir module_file variant fs = (Ok p, fs') ->
        get_model_variant_dir module_file variant fs' = (Ok p, fs')) /\
    (forall r,
        check_model_files module_file variant fs = (Ok r, fs') ->
        check_model_files module_file variant fs' = (Ok r, fs')).
Proof.
  intros module_file variant fs fs'.
  assert (Hget : forall p,
            get_model_variant_dir module_file variant fs = (Ok p, fs') ->
            get_model_variant_dir module_file variant fs' = (Ok p, fs')).
  { intros p (-> & fs1 & Hm1 & Hm2)%get_model_variant_dir_inv.
    pose proof (mkdir_is_dir _ _ _ _ Hm2) as Hd2.
    assert (Hd1 : is_dir fs' (songgen_dir module_file) = true).
    { pose proof (mkdir_is_dir _ _ _ _ Hm1) as Hd1. unfold is_dir in *.
      destruct (kind_of fs1 (songgen_dir module_file)) as [[|]|] eqn:Hk;
        try discriminate.
      by rewrite (mkdir_keeps _ _ _ _ _ _ Hm2 Hk). }
    unfold get_model_variant_dir, get_songgen_models_dir, bind, ret.
    fold (songgen_dir module_file).
    by rewrite (mkdir_existing _ _ Hd1), (mkdir_existing _ _ Hd2). }
  split; [exact Hget|].
  intros r Hc. pose proof Hc as (Hd & Hmiss & _)%check_model_files_ok.
  apply Hget in Hd. revert Hc. unfold check_model_files, bind.
  rewrite Hd.
  destruct (get_model_variant_dir module_file variant fs) as [[vd|e] fs1];
    [|discriminate].
  intros [= <- <-]. cbn [cr_path]. reflexivity.
Qed.

Lemma variant_dir_calls_repeat_witness :
  exists r fs',
    check_model_files sample_module_file "songgeneration_base" sample_fs
    = (Ok r, fs') /\
    check_model_files sample_module_file "songgeneration_base" fs'
    = (Ok r, fs').
Proof.
  destruct (check_model_files_succeeds sample_module_file
              "songgeneration_base" sample_fs eq_refl eq_refl)
    as (r & fs' & Hc).
  exists r, fs'. split; [exact Hc|].
  exact (proj2 (variant_dir_calls_repeat sample_module_file
                  "songgeneration_base" sample_fs fs') r Hc).
Defined.

(** X3: among the absolute paths without [".."], with
    [models/songgen] and the variant directory such paths, whatever
    [get_model_variant_dir] (and so [check_model_files]) changes on disk
    is a new directory at or above [models/songgen] or the variant
    directory; no regular file appears and no entry changes or
    disappears. *)
Theorem getters_add_directories_only :
  forall (module_file : Path) (variant : string) (fs fs' : gmap Path kind) p,
    anchored (songgen_dir module_file) = true ->
    no_dotdot (songgen_dir module_file) = true ->
    no_dotdot (joinpath (songgen_dir module_file) variant) = true ->
    get_model_variant_dir module_file variant fs = (Ok p, fs') ->
    forall q,
      anchored q = true -> no_dotdot q = true ->
      kind_of fs' q = kind_of fs q \/
      (kind_of fs q = None /\ kind_of fs' q = Some Dir /\
       (parts q `prefix_of` parts (songgen_dir module_file) \/
        parts q `prefix_of` parts p)).
Proof.
  intros module_file variant fs fs' p _ _ _
    (-> & fs1 & Hm1 & Hm2)%get_model_variant_dir_inv q _ _.
  destruct (mkdir_adds _ _ _ _ q Hm1) as [H1|(Hn1 & Hd1 & Ha1 & Hp1)];
    destruct (mkdir_adds _ _ _ _ q Hm2) as [H2|(Hn2 & Hd2 & Ha2 & Hp2)].
  - left. congruence.
  - right. rewrite <- H1. auto.
  - right. rewrite H2. auto.
  - congruence.
Qed.

Lemma getters_add_directories_only_witness :
  exists fs',
    get_model_variant_dir sample_module_file "songgeneration_base" sample_fs
    = (Ok (path_of_string "/ComfyUI/models/songgen/songgeneration_base"), fs')
    /\ kind_of fs' (path_of_string "/ComfyUI/custom_nodes") = Some Dir.
Proof.
  destruct (get_model_variant_dir_succeeds sample_module_file
              "songgeneration_base" sample_fs eq_refl eq_refl) as [fs' Hd].
  exists fs'. split; [exact Hd|].
  destruct (getters_add_directories_only sample_module_file
              "songgeneration_base" sample_fs fs' _ eq_refl eq_refl eq_refl Hd
              (path_of_string "/ComfyUI/custom_nodes") eq_refl eq_refl)
    as [Hsame|(Hnone & _)].
  - rewrite Hsame. reflexivity.
  - discriminate Hnone.
Defined.

End MorePathFacts.

Section FreshInstallation.

Import Paths.

Implicit Types (fs : gmap Path kind) (p q : Path).

(** On a well-formed disk nothing exists below a path that does not
    exist. *)
Lemma absent_below_absent fs p s w :
  parent_closed fs -> kind_of fs p = None ->
  path_of_string s = mkPath false [w] ->
  path_exists fs (joinpath p s) = false.
Proof.
  intros Hpc Hp Hs. unfold path_exists, joinpath. rewrite Hs. simpl.
  rewrite kind_of_snoc.
  destruct (fs !! mkPath (anchored p) (parts p ++ [w])) as [k|] eqn:Hq;
    [|done].
  assert (Hdir : is_dir fs (parent (mkPath (anchored p) (parts p ++ [w]))) = true)
    by (apply Hpc; eauto).
  rewrite parent_snoc in Hdir. unfold is_dir in Hdir.
  destruct p as [a ps]. simpl in Hdir. by rewrite Hp in Hdir.
Qed.



(** X5: the first check of a variant. On a well-formed disk on which the
    directory of a relative variant name, a path without [".."], does not
    exist yet, [check_model_files] creates that directory and reports both
    files missing. *)
Theorem first_check_creates_and_reports_both :
  forall (module_file : Path) (variant : string) (fs fs' : gmap Path kind) r,
    let vd := joinpath (songgen_dir module_file) variant in
    parent_closed fs ->
    anchored (path_of_string variant) = false ->
    no_dotdot vd = true ->
    kind_of fs vd = None ->
    check_model_files module_file variant fs = (Ok r, fs') ->
    cr_path r = vd /\
    is_dir fs' vd = true /\
    cr_missing r = ["config.yaml"; "model.pt"] /\
    cr_exists r = false.
Proof.
  intros module_file variant fs fs' r vd Hpc Hrel _ Hnone Hc.
  apply check_model_files_ok in Hc as (Hd & Hmiss & Hex).
  pose proof (get_model_variant_dir_inv _ _ _ _ _ Hd) as (Hp & fs1 & _ & Hm2).
  fold vd in Hp. rewrite Hp in Hmiss, Hd, Hm2.
  assert (Hgone : forall f w, path_of_string f = mkPath false [w] ->
            path_exists fs' (joinpath vd f) = false).
  { intros f w Hf.
    rewrite (path_exists_ext fs fs')
      by (by apply (variant_files_untouched module_file variant fs fs' f w)).
    by apply (absent_below_absent fs vd f w). }
  unfold absent in Hmiss. simpl in Hmiss.
  rewrite (Hgone "config.yaml" "config.yaml" eq_refl) in Hmiss.
  rewrite (Hgone "model.pt" "model.pt" eq_refl) in Hmiss. simpl in Hmiss.
  split; [done|]. split; [by apply mkdir_is_dir with (1 := Hm2)|].
  split; [done|].
  destruct (cr_exists r); [|done].
  destruct Hex as [Hex _]. rewrite Hmiss in Hex. by specialize (Hex eq_refl).
Qed.

Lemma first_check_creates_and_reports_both_witness :
  exists r fs',
    check_model_files sample_module_file "songgeneration_base" sample_fs
    = (Ok r, fs') /\
    is_dir fs' (path_of_string "/ComfyUI/models/songgen/songgeneration_base")
    = true /\
    cr_missing r = ["config.yaml"; "model.pt"].
Proof.
  assert (Hpc : parent_closed sample_fs)
    by (apply parent_closed_b_sound; vm_compute; reflexivity).
  destruct (check_model_files_succeeds sample_module_file
              "songgeneration_base" sample_fs eq_refl eq_refl)
    as (r & fs' & Hc).
  exists r, fs'. split; [exact Hc|].
  destruct (first_check_creates_and_reports_both sample_module_file
              "songgeneration_base" sample_fs fs' r Hpc eq_refl eq_refl
              eq_refl Hc)
    as (_ & Hdir & Hmiss & _).
  split; [exact Hdir|exact Hmiss].
Defined.

End FreshInstallation.

(** ** Paths and their strings *)

Section PathStrings.

Import Paths.

Implicit Types (fs : gmap Path kind) (p q : Path) (w s : string).

Lemma string_app_cons a w s : String a w +:+ s = String a (w +:+ s).
Proof. reflexivity. Qed.

Lemma string_app_nil_l s : "" +:+ s = s.
Proof. reflexivity. Qed.

Lemma string_app_empty w : w +:+ "" = w.
Proof.
  induction w as [|a w IH]; [done|]. by rewrite string_app_cons, IH.
Qed.

Lemma split_on_cons s : exists hd tl, split_on "/" s = hd :: tl.
Proof.
  induction s as [|a s (hd & tl & IH)]; simpl; [eauto|].
  destruct (Ascii.eqb a "/"); [eauto|]. rewrite IH. eauto.
Qed.

(** A piece without a slash joins the first piece of what follows. *)
Lemma split_on_prepend w : forall s hd tl,
  has_slash w = false -> split_on "/" s = hd :: tl ->
  split_on "/" (w +:+ s) = (w +:+ hd) :: tl.
Proof.
  induction w as [|a w IH]; intros s hd tl Hw Hs; [done|].
  simpl in Hw. apply orb_false_iff in Hw as [Ha Hw].
  rewrite !string_app_cons. simpl. rewrite Ha.
  by rewrite (IH s hd tl Hw Hs).
Qed.

Lemma clean_part_inv w :
  clean_part w = true ->
  has_slash w = false /\ keep_part w = true /\ starts_with_slash w = false.
Proof.
  unfold clean_part. intros [Hk Hs%negb_true_iff]%andb_true_iff.
  split; [done|]. split; [done|].
  destruct w as [|a w]; [done|]. simpl in *.
  by apply orb_false_iff in Hs as [-> _].
Qed.

Lemma split_on_concat (l : list string) :
  Forall (fun w => clean_part w = true) l -> l <> [] ->
  split_on "/" (String.concat "/" l) = l.
Proof.
  induction l as [|x l IH]; intros Hclean Hne; [done|].
  apply Forall_cons in Hclean as [(Hx & _ & _)%clean_part_inv Hl].
  destruct l as [|y l].
  - simpl. rewrite <- (string_app_empty x) at 1.
    rewrite (split_on_prepend x "" "" []) by done.
    by rewrite string_app_empty.
  - change (String.concat "/" (x :: y :: l))
      with (x +:+ "/" +:+ String.concat "/" (y :: l)).
    assert (Hs : split_on "/" ("/" +:+ String.concat "/" (y :: l))
                 = "" :: y :: l).
    { change ("/" +:+ String.concat "/" (y :: l))
        with (String "/" (String.concat "/" (y :: l))).
      change (split_on "/" (String "/" (String.concat "/" (y :: l))))
        with ("" :: split_on "/" (String.concat "/" (y :: l))).
      by rewrite IH. }
    rewrite (split_on_prepend x _ "" (y :: l) Hx Hs).
    by rewrite string_app_empty.
Qed.

Lemma filter_keep_clean (l : list string) :
  Forall (fun w => clean_part w = true) l -> List.filter keep_part l = l.
Proof.
  induction 1 as [|x l (_ & Hx & _)%clean_part_inv _ IH]; simpl; [done|].
  by rewrite Hx, IH.
Qed.

Lemma starts_with_slash_concat x (l : list string) :
  clean_part x = true ->
  starts_with_slash (String.concat "/" (x :: l)) = false.
Proof.
  intros (_ & Hk & Hs)%clean_part_inv.
  destruct x as [|a x]; [done|]. by destruct l.
Qed.

(** [Path(str(p)) == p] for a path made of clean components. *)
Lemma path_of_string_path_str p : clean_path p -> path_of_string (path_str p) = p.
Proof.
  destruct p as [[|] ps]; unfold clean_path, path_of_string, path_str; simpl;
    intros Hclean.
  - destruct (Ascii.eqb "/" "/") eqn:Heq; [|done]. f_equal.
    destruct ps as [|x ps]; [done|].
    rewrite string_app_nil_l, split_on_concat by done.
    by rewrite filter_keep_clean.
  - destruct ps as [|x ps]; [done|].
    rewrite starts_with_slash_concat
      by (by apply Forall_cons in Hclean as [? _]).
    rewrite split_on_concat by done. by rewrite filter_keep_clean.
Qed.

Lemma Forall_removelast {X} (P : X -> Prop) (l : list X) :
  Forall P l -> Forall P (removelast l).
Proof.
  induction 1 as [|x l Hx Hl IH]; simpl; [constructor|].
  destruct l; [constructor|]. by constructor.
Qed.

Lemma clean_package_root module_file :
  clean_path module_file -> clean_path (get_package_root module_file).
Proof.
  intros Hclean. unfold clean_path, get_package_root, parent. simpl.
  by do 2 apply Forall_removelast.
Qed.

Lemma clean_joinpath p s w :
  path_of_string s = mkPath false [w] -> clean_part w = true ->
  clean_path p -> clean_path (joinpath p s).
Proof.
  intros Hs Hw Hp. unfold clean_path.
  rewrite (parts_joinpath_single p s w Hs). apply Forall_app. split; [done|].
  by constructor.
Qed.

Lemma clean_bundled_dirs module_file d :
  clean_path module_file -> d ∈ bundled_dirs module_file -> clean_path d.
Proof.
  intros Hroot%clean_package_root. unfold bundled_dirs.
  set (root := get_package_root module_file) in *.
  intros Hd. set_unfold in Hd.
  destruct Hd as [->|[->|[->|[->|[]]]]]; [done|..];
    repeat (eapply clean_joinpath; [reflexivity|reflexivity|]); done.
Qed.

Lemma path_parts_app_inj a (l x y : list string) :
  mkPath a (l ++ x) = mkPath a (l ++ y) -> x = y.
Proof. intros [= Heq]. by apply app_inv_head in Heq. Qed.

Lemma NoDup_bundled_dirs module_file : NoDup (bundled_dirs module_file).
Proof.
  unfold bundled_dirs. generalize (get_package_root module_file) as root.
  intros [a l]. unfold joinpath. simpl. rewrite <- !app_assoc. simpl.
  rewrite <- (app_nil_r l) at 1.
  repeat (apply NoDup_cons; split);
    [ | | | |apply NoDup_nil_2]; set_unfold;
    intros Hin; repeat (destruct Hin as [Hin|Hin]; [|]);
    try (apply path_parts_app_inj in Hin; discriminate); done.
Qed.

Lemma paths_to_add_strings module_file :
  paths_to_add module_file = path_str <$> bundled_dirs module_file.
Proof. reflexivity. Qed.

Lemma NoDup_paths_to_add module_file :
  clean_path module_file -> NoDup (paths_to_add module_file).
Proof.
  intros Hclean. rewrite paths_to_add_strings.
  apply NoDup_fmap_2_strong; [|apply NoDup_bundled_dirs].
  intros d1 d2 H1 H2 Heq.
  rewrite <- (path_of_string_path_str d1), <- (path_of_string_path_str d2), Heq;
    [done|by eapply clean_bundled_dirs..].
Qed.

(** What the loop of [setup_bundled_imports] leaves in [sys.path]. *)
Lemma elem_of_fold_add_path fs (candidates sys_path : list string) c :
  c ∈ candidates ->
  (c ∈ fold_left (add_path fs) candidates sys_path <->
   c ∈ sys_path \/ path_exists fs (path_of_string c) = true).
Proof.
  intros Hc.
  destruct (fold_add_path_prepends fs candidates sys_path)
    as (added & Hfold & _ & Hadded).
  split.
  - rewrite Hfold. intros [Hin|Hin]%elem_of_app; [|by left].
    right. by apply Hadded.
  - intros [Hin|Hex].
    + rewrite Hfold. apply elem_of_app. by right.
    + destruct (fold_add_path_saturates fs candidates sys_path c Hc)
        as [?|Hne]; [done|congruence].
Qed.

Lemma filter_ext_elem {X} (P Q : X -> Prop)
      `{!forall x, Decision (P x)} `{!forall x, Decision (Q x)} (l : list X) :
  (forall x, x ∈ l -> P x <-> Q x) -> filter P l = filter Q l.
Proof.
  induction l as [|x l IH]; intros Hext; [done|].
  assert (Hl : filter P l = filter Q l)
    by (apply IH; intros y Hy; apply Hext; by right).
  destruct (decide (P x)) as [HP|HP].
  - rewrite !filter_cons_True; [by rewrite Hl|by apply Hext; [left|]|done].
  - rewrite !filter_cons_False; [done| |done].
    intros HQ. apply HP. apply Hext; [by left|done].
Qed.

(** The loop enters the new candidates one in front of the other. *)
Lemma fold_add_path_order fs (candidates : list string) :
  forall sys_path : list string,
    NoDup candidates ->
    fold_left (add_path fs) candidates sys_path
    = rev (filter (fun c => (c ∉ sys_path) /\
                            path_exists fs (path_of_string c) = true)
                  candidates) ++ sys_path.
Proof.
  induction candidates as [|c cs IH]; intros sys_path Hnd; [done|].
  apply NoDup_cons in Hnd as [Hc Hnd]. simpl fold_left.
  destruct (add_path_cases fs sys_path c) as [(-> & Hnin & Hex)|(-> & Hor)].
  - rewrite IH by done. rewrite filter_cons_True by done.
    simpl. rewrite <- app_assoc. simpl. do 2 f_equal.
    apply filter_ext_elem. intros c' Hc'. set_unfold.
    split; [tauto|]. intros [Hn ?]. split; [|done].
    intros [->|?]; [done|tauto].
  - rewrite IH by done. rewrite filter_cons_False; [done|].
    intros [Hnin Hex]. destruct Hor; [done|congruence].
Qed.

Lemma filter_all {X} (P : X -> Prop) `{!forall x, Decision (P x)} (l : list X) :
  Forall P l -> filter P l = l.
Proof.
  induction 1 as [|x l Hx _ IH]; [done|].
  by rewrite filter_cons_True, IH.
Qed.

(** X6: with [paths.py] at a path of clean components, the string that
    [setup_bundled_imports] offers for a bundled directory reads back as
    that directory, so the string is in [sys.path] afterwards exactly when
    it was there before or the directory exists. *)
Theorem bundled_path_is_added_iff_it_exists :
  forall (module_file : Path) (fs : gmap Path kind) (sys_path : list string) d,
    clean_path module_file ->
    d ∈ bundled_dirs module_file ->
    path_of_string (path_str d) = d /\
    (path_str d ∈ setup_bundled_imports module_file fs sys_path <->
     path_str d ∈ sys_path \/ path_exists fs d = true).
Proof.
  intros module_file fs sys_path d Hclean Hd.
  assert (Hback : path_of_string (path_str d) = d)
    by (by eapply path_of_string_path_str, clean_bundled_dirs).
  split; [done|]. unfold setup_bundled_imports.
  rewrite elem_of_fold_add_path, Hback; [done|].
  rewrite paths_to_add_strings. apply list_elem_of_fmap. eauto.
Qed.

Lemma clean_sample_module_file : clean_path sample_module_file.
Proof. unfold clean_path. simpl. repeat constructor. Qed.

(** [third_party] is not on the sample disk, [codeclm] is. *)
Lemma bundled_path_is_added_iff_it_exists_witness :
  "/ComfyUI/custom_nodes/ComfyUI_FL-SongGen/codeclm"
    ∈ setup_bundled_imports sample_module_file sample_fs [] /\
  "/ComfyUI/custom_nodes/ComfyUI_FL-SongGen/third_party"
    ∉ setup_bundled_imports sample_module_file sample_fs [].
Proof.
  split.
  - apply (bundled_path_is_added_iff_it_exists sample_module_file sample_fs []
             (path_of_string "/ComfyUI/custom_nodes/ComfyUI_FL-SongGen/codeclm")
             clean_sample_module_file).
    + right. left.
    + right. reflexivity.
  - intros Hin.
    apply (bundled_path_is_added_iff_it_exists sample_module_file sample_fs []
             (path_of_string "/ComfyUI/custom_nodes/ComfyUI_FL-SongGen/third_party")
             clean_sample_module_file) in Hin.
    + destruct Hin as [Hin|Hin]; [by apply elem_of_nil in Hin|discriminate Hin].
    + right. right. right. left.
Defined.

(** X7: with [paths.py] at a path of clean components,
    [setup_bundled_imports] puts the bundled paths that are new and exist
    in front of [sys.path] in the reverse of their listed order: a path
    listed later is searched earlier. With all four new and present,
    [third_party] comes first and the package root last. *)
Theorem bundled_paths_are_prepended_in_reverse :
  forall (module_file : Path) (fs : gmap Path kind) (sys_path : list string),
    clean_path module_file ->
    setup_bundled_imports module_file fs sys_path
    = rev (filter (fun c => (c ∉ sys_path) /\
                            path_exists fs (path_of_string c) = true)
                  (paths_to_add module_file)) ++ sys_path /\
    ((forall c, c ∈ paths_to_add module_file ->
        (c ∉ sys_path) /\ path_exists fs (path_of_string c) = true) ->
     setup_bundled_imports module_file fs sys_path
     = rev (paths_to_add module_file) ++ sys_path).
Proof.
  intros module_file fs sys_path Hclean.
  assert (Horder := fold_add_path_order fs (paths_to_add module_file) sys_path
                      (NoDup_paths_to_add module_file Hclean)).
  split; [exact Horder|].
  intros Hall. unfold setup_bundled_imports. rewrite Horder.
  rewrite filter_all; [done|]. by apply Forall_forall.
Qed.

Lemma bundled_paths_are_prepended_in_reverse_witness :
  setup_bundled_imports sample_module_file sample_fs ["/usr/lib/python3"]
  = [ "/ComfyUI/custom_nodes/ComfyUI_FL-SongGen/codeclm";
      "/ComfyUI/custom_nodes/ComfyUI_FL-SongGen";
      "/usr/lib/python3" ].
Proof.
  rewrite (proj1 (bundled_paths_are_prepended_in_reverse sample_module_file
                    sample_fs ["/usr/lib/python3"] clean_sample_module_file)).
  vm_compute. reflexivity.
Defined.

End PathStrings.

(** ** Further properties of [compat.py] *)

Section MoreCompatFacts.

Import Compat.

Implicit Types (S : gset Z) (heads : list Z).

(** X8: the fallback returns only if [n_heads] and [head_dim] are not
    negative and every head to prune lies in [-n_heads, n_heads): a
    negative dimension makes it raise, and so does a head outside that
    range unless it is already pruned. *)
Theorem fallback_returns_only_in_range :
  forall (heads : list Z) (n_heads head_dim : Z) (already_pruned_heads : gset Z),
    let heads_to_prune : gset Z := list_to_set heads ∖ already_pruned_heads in
    let outcome := find_pruneable_heads_and_indices heads n_heads head_dim
                     already_pruned_heads in
    ((exists r, outcome = Ok r) ->
     0 <= n_heads /\ 0 <= head_dim /\
     forall h, h ∈ heads_to_prune -> - n_heads <= h < n_heads) /\
    (n_heads < 0 \/ head_dim < 0 -> exists e, outcome = Raise e) /\
    ((exists h, h ∈ heads /\ (h ∉ already_pruned_heads) /\
                ~ (- n_heads <= h < n_heads)) ->
     exists e, outcome = Raise e).
Proof.
  intros heads n d pruned hp outcome.
  assert (Hok : (exists r, outcome = Ok r) ->
                0 <= n /\ 0 <= d /\ forall h, h ∈ hp -> - n <= h < n).
  { intros [[hs index] Hr].
    apply fallback_ok_inv in Hr as (Hn & Hd & -> & Hrange & _). done. }
  assert (Hraise : ~ (0 <= n /\ 0 <= d /\ forall h, h ∈ hp -> - n <= h < n) ->
                   exists e, outcome = Raise e).
  { intros Hnot. destruct outcome as [r|e] eqn:Hr; [|eauto].
    destruct Hnot. apply Hok. eauto. }
  split; [exact Hok|]. split.
  - intros Hneg. apply Hraise. lia.
  - intros (h & Hin & Hnot & Hout). apply Hraise. intros (_ & _ & Hrange).
    apply Hout, Hrange. unfold hp. set_unfold. done.
Qed.

Lemma fallback_returns_only_in_range_witness :
  (forall h, h ∈ (list_to_set [-1; 7] ∖ {[7]} : gset Z) -> - 4 <= h < 4) /\
  exists e, find_pruneable_heads_and_indices [1; 4] 4 2 ∅ = Raise e.
Proof.
  split.
  - assert (Hrun : exists r, find_pruneable_heads_and_indices [-1; 7] 4 2 {[7]}
                             = Ok r)
      by (eexists; vm_compute; reflexivity).
    destruct (fallback_returns_only_in_range [-1; 7] 4 2 {[7]})
      as (Hok & _).
    destruct (Hok Hrun) as (_ & _ & Hrange). exact Hrange.
  - destruct (fallback_returns_only_in_range [1; 4] 4 2 ∅)
      as (_ & _ & Hbad).
    apply Hbad. exists 4. split; [set_solver|]. split; [set_solver|lia].
Defined.

Lemma size_list_to_set_le (l : list Z) :
  (size (list_to_set l : gset Z) <= length l)%nat.
Proof.
  induction l as [|x l IH]; [by rewrite list_to_set_nil, size_empty|].
  rewrite list_to_set_cons. simpl length.
  destruct (decide (x ∈ (list_to_set l : gset Z))) as [Hin|Hnin].
  - rewrite (subseteq_union_1_L {[x]} (list_to_set l))
      by (by apply singleton_subseteq_l).
    lia.
  - rewrite size_union by (by apply disjoint_singleton_l).
    rewrite size_singleton. lia.
Qed.

(** X9: when the fallback returns, the index holds the flat positions of
    the rows that no head to prune addresses, a negative head addressing
    the row counted from the end: these are the rows outside the set of
    the heads taken modulo [n_heads]. The set returned beside the index
    holds the heads as given, so it can name more heads than rows were
    removed. *)
Theorem fallback_index_wraps_negative_heads :
  forall (heads : list Z) (n_heads head_dim : Z) (already_pruned_heads : gset Z)
         (heads_to_prune : gset Z) (index : list Z),
    find_pruneable_heads_and_indices heads n_heads head_dim
      already_pruned_heads = Ok (heads_to_prune, index) ->
    let rows : gset Z := set_map (fun h => h `mod` n_heads) heads_to_prune in
    heads_to_prune = list_to_set heads ∖ already_pruned_heads /\
    index = kept_positions n_heads head_dim rows /\
    Z.of_nat (length index) = (n_heads - Z.of_nat (size rows)) * head_dim /\
    (size rows <= size heads_to_prune)%nat /\
    (forall i, i ∈ index -> 0 <= i < n_heads * head_dim).
Proof.
  intros heads n d pruned hp index Hrun rows.
  apply fallback_ok_inv in Hrun as (Hn & Hd & Hhp & Hrange & Hindex & _).
  fold rows in Hindex.
  split; [done|]. split; [done|]. rewrite Hindex.
  split; [|split].
  - unfold kept_positions. rewrite length_kept_blocks.
    assert (Hrows : forall r, r ∈ rows -> 0 <= r < n).
    { intros r (h & -> & Hh)%elem_of_map. apply Hrange in Hh.
      apply Z.mod_pos_bound. lia. }
    pose proof (length_not_pruned n rows Hrows). nia.
  - unfold rows, set_map.
    etransitivity; [apply size_list_to_set_le|]. by rewrite length_fmap.
  - intros i (h & Hh & _ & Hi)%elem_of_kept_positions. nia.
Qed.

(** Heads [-1] and [3] of four heads are the same row. *)
Lemma fallback_index_wraps_negative_heads_witness :
  exists index : list Z,
    find_pruneable_heads_and_indices [-1; 3] 4 2 ∅
    = Ok (list_to_set [-1; 3] ∖ ∅, index) /\
    index = [0; 1; 2; 3; 4; 5] /\
    Z.of_nat (length index) = (4 - 1) * 2.
Proof.
  assert (Hrun : find_pruneable_heads_and_indices [-1; 3] 4 2 ∅
                 = Ok (list_to_set [-1; 3] ∖ ∅, [0; 1; 2; 3; 4; 5]))
    by (vm_compute; reflexivity).
  destruct (fallback_index_wraps_negative_heads [-1; 3] 4 2 ∅ _ _ Hrun)
    as (_ & _ & Hlen & _).
  eexists. split; [exact Hrun|]. split; [reflexivity|].
  rewrite Hlen. vm_compute. reflexivity.
Defined.

Lemma kept_blocks_all (d : Z) (m : nat) : forall k,
  0 <= d ->
  concat ((fun h => seqZ (h * d) d) <$> seqZ k (Z.of_nat m))
  = seqZ (k * d) (Z.of_nat m * d).
Proof.
  induction m as [|m IH]; intros k Hd; [done|].
  rewrite (seqZ_cons k) by lia.
  replace (Z.pred (Z.of_nat (Datatypes.S m))) with (Z.of_nat m) by lia.
  rewrite fmap_cons. simpl concat. rewrite IH by done.
  replace (Z.of_nat (Datatypes.S m) * d) with (d + Z.of_nat m * d) by lia.
  rewrite seqZ_app by nia. do 2 f_equal. lia.
Qed.

Lemma kept_positions_empty n d :
  0 <= n -> 0 <= d -> kept_positions n d ∅ = seqZ 0 (n * d).
Proof.
  intros Hn Hd. unfold kept_positions.
  rewrite filter_all by (apply Forall_forall; intros h _; apply not_elem_of_empty).
  rewrite <- (Z2Nat.id n) by done. by rewrite kept_blocks_all.
Qed.

(** X10: heads that are already pruned are dropped before anything is
    indexed, whatever their value: if every head of [heads] is in
    [already_pruned_heads], no index error is raised, and whenever the
    fallback returns it returns the empty set and the index of all
    [n_heads * head_dim] positions. So a second call, with the heads of a
    first call added to [already_pruned_heads], prunes nothing. *)
Theorem fallback_skips_pruned_heads :
  forall (heads : list Z) (n_heads head_dim : Z) (already_pruned_heads : gset Z),
    (forall h, h ∈ heads -> h ∈ already_pruned_heads) ->
    let outcome := find_pruneable_heads_and_indices heads n_heads head_dim
                     already_pruned_heads in
    (forall i size, outcome <> Raise (IndexError i size)) /\
    (forall heads_to_prune index,
        outcome = Ok (heads_to_prune, index) ->
        heads_to_prune = ∅ /\ index = seqZ 0 (n_heads * head_dim)).
Proof.
  intros heads n d pruned Hall outcome.
  assert (Hempty : (list_to_set heads ∖ pruned : gset Z) = ∅).
  { apply set_eq. intros h. set_unfold. split; [|done].
    intros [Hin Hnot]. by apply Hnot, Hall. }
  split.
  - intros i size. unfold outcome, find_pruneable_heads_and_indices.
    rewrite Hempty, elements_empty. simpl.
    unfold ones. by destruct (_ || _).
  - intros hp index Hrun.
    apply fallback_ok_inv in Hrun as (Hn & Hd & Hhp & _ & Hindex & _).
    rewrite Hempty in Hhp. subst hp. split; [done|].
    rewrite Hindex, set_map_empty. by apply kept_positions_empty.
Qed.

(** After pruning heads 1 and 9 (out of range, but pruned before), asking
    again for them changes nothing. *)
Lemma fallback_skips_pruned_heads_witness :
  exists heads_to_prune index,
    find_pruneable_heads_and_indices [1; 9] 4 2 ({[9]} ∪ list_to_set [1; 9])
    = Ok (heads_to_prune, index) /\
    heads_to_prune = ∅ /\ index = [0; 1; 2; 3; 4; 5; 6; 7].
Proof.
  assert (Hrun : find_pruneable_heads_and_indices [1; 9] 4 2
                   ({[9]} ∪ list_to_set [1; 9])
                 = Ok (∅, [0; 1; 2; 3; 4; 5; 6; 7]))
    by (vm_compute; reflexivity).
  destruct (fallback_skips_pruned_heads [1; 9] 4 2
              ({[9]} ∪ list_to_set [1; 9])) as [_ Hok].
  - intros h Hh. set_unfold. tauto.
  - destruct (Hok _ _ Hrun) as [Hhp Hindex].
    eexists _, _. split; [exact Hrun|]. split; reflexivity.
Defined.

End MoreCompatFacts.

(** ** Further properties of the node *)

Section MoreLoaderFacts.

Import ModelLoader.

Implicit Types (C : collaborators) (w : world) (e : exc).

Lemma console_lines_app (t1 t2 : list event) :
  console_lines (t1 ++ t2) = console_lines t1 ++ console_lines t2.
Proof. apply omap_app. Qed.

Lemma console_lines_console (lines : list string) :
  console_lines (Console <$> lines) = lines.
Proof.
  induction lines as [|line lines IH]; [done|].
  change (line :: console_lines (Console <$> lines) = line :: lines).
  by rewrite IH.
Qed.

Lemma console_lines_progress (calls : list (pyval * pyval)) :
  console_lines (progress_updates calls) = [].
Proof. induction calls as [|c calls IH]; [done|]. exact IH. Qed.

(** X11: where the available memory, if it is an [int], is one that
    [.1f] shows digit by digit, an exception raised before the [try] (by
    [get_recommended_memory_mode], [get_available_vram_gb] or
    [get_variant_info]) leaves the node as it is: the collaborator
    [load_model] is not called, no progress bar is made, the store is
    untouched, and nothing is printed about the error; the console shows
    at most the line of the automatic detection. *)
Theorem early_failure_is_silent :
  forall C (model_variant memory_mode : string) (force_reload : bool) w e w1,
    vram_formats_exactly C ->
    prelude C model_variant memory_mode w = (Raise e, w1) ->
    FL_SongGen_ModelLoader_load_model C model_variant memory_mode
      force_reload w = (Raise e, w1) /\
    store w1 = store w /\
    (get_variant_info C model_variant = Raise e \/
     (memory_mode = "auto" /\
      (get_recommended_memory_mode C model_variant = Raise e \/
       get_available_vram_gb C = Raise e))) /\
    exists new,
      trace w1 = trace w ++ new /\
      Forall (fun ev => is_load_call ev = false) new /\
      Forall (fun ev => is_progress_event ev = false) new /\
      (console_lines new = [] \/
       exists resolved vram,
         memory_mode = "auto" /\
         get_recommended_memory_mode C model_variant = Ok resolved /\
         get_available_vram_gb C = Ok vram /\
         console_lines new
         = ["[FL SongGen] Auto-detected memory mode: " +:+ resolved
            +:+ " (available VRAM: " +:+ num_format_1f vram +:+ "GB)"]).
Proof.
  intros C variant memory_mode force_reload w e w1 _ Hpre.
  split; [by rewrite node_run, Hpre|].
  revert Hpre. rewrite prelude_after_resolve.
  destruct (decide (memory_mode = "auto")) as [->|Hne].
  - rewrite resolve_memory_mode_auto.
    destruct (get_recommended_memory_mode C variant) as [r|e1] eqn:Hr.
    + destruct (get_available_vram_gb C) as [vram|e2] eqn:Hv.
      * destruct (get_variant_info C variant) as [info|e3] eqn:Hi;
          [discriminate|].
        cbn [trace store]. intros [= <- <-]. cbn [trace store].
        split; [done|]. split; [by left|].
        eexists. split; [by rewrite <- app_assoc|].
        split; [events_all|]. split; [events_all|].
        right. by exists r, vram.
      * intros [= <- <-]. cbn [trace store]. split; [done|].
        split; [right; auto|].
        eexists. split; [done|]. split; [events_all|]. split; [events_all|].
        by left.
    + intros [= <- <-]. cbn [trace store]. split; [done|].
      split; [right; auto|].
      eexists. split; [done|]. split; [events_all|]. split; [events_all|].
      by left.
  - rewrite resolve_memory_mode_given by done.
    destruct (get_variant_info C variant) as [info|e3] eqn:Hi; [discriminate|].
    intros [= <- <-]. cbn [trace store]. split; [done|]. split; [by left|].
    eexists. split; [done|]. split; [events_all|]. split; [events_all|].
    by left.
Qed.

(** An unknown variant: the [KeyError] of the lookup comes out, after the
    line of the automatic detection. *)
Lemma early_failure_is_silent_witness :
  FL_SongGen_ModelLoader_load_model unknown_variant_collaborators
    "songgeneration_unknown" "auto" false empty_world
  = (Raise sample_key_error,
     mkWorld
       [ Call_get_recommended_memory_mode "songgeneration_unknown";
         Call_get_available_vram_gb;
         Console "[FL SongGen] Auto-detected memory mode: normal (available VRAM: 24.0GB)";
         Call_get_variant_info "songgeneration_unknown" ]
       ∅).
Proof.
  apply (early_failure_is_silent unknown_variant_collaborators
           "songgeneration_unknown" "auto" false empty_world).
  - intros z [= <-]. vm_compute. discriminate.
  - vm_compute. reflexivity.
Defined.

(** X12: what a run that reaches the loading step prints, line by line,
    where the available memory, if it is an [int], is one that [.1f] shows
    digit by digit:
    with [memory_mode = "auto"] first the line of the automatic detection;
    then the banner; then, on success, the closing line and, on an
    exception of the collaborator, the lines of the matching [except]
    clause (none for an exception outside [Exception]). *)
Theorem console_of_a_run :
  forall C (model_variant memory_mode : string) (force_reload : bool)
         w resolved w1,
    vram_formats_exactly C ->
    prelude C model_variant memory_mode w = (Ok resolved, w1) ->
    let run := FL_SongGen_ModelLoader_load_model C model_variant memory_mode
                 force_reload w in
    exists info detection new,
      get_variant_info C model_variant = Ok info /\
      trace (snd run) = trace w ++ new /\
      console_lines new
      = detection
        ++ banner_lines model_variant resolved info
        ++ match fst run with
           | Ok _ => ["[FL SongGen] Model loaded successfully!"]
           | Raise e => error_lines model_variant e
           end /\
      ((memory_mode <> "auto" /\ detection = []) \/
       (memory_mode = "auto" /\
        exists vram,
          get_available_vram_gb C = Ok vram /\
          detection
          = ["[FL SongGen] Auto-detected memory mode: " +:+ resolved
             +:+ " (available VRAM: " +:+ num_format_1f vram +:+ "GB)"])).
Proof.
  intros C variant memory_mode force_reload w resolved w1 _ Hpre run.
  subst run. rewrite (node_after_prelude _ _ _ _ _ _ _ Hpre). cbv zeta.
  destruct (prelude_ok_inv _ _ _ _ _ _ Hpre)
    as (_ & info & Hinfo & [(Hauto & _ & vram & Hvram & ->)|(Hne & _ & ->)]);
    exists info.
  - destruct (lo_result _) as [[l d]|e]; cbn [fst snd trace];
      eexists _, _; (split; [done|]);
      (split; [by rewrite <- !app_assoc|]);
      (split; [|right; split; [done|]; exists vram; split; [done|reflexivity]]);
      rewrite !console_lines_app, console_lines_progress,
        ?console_lines_console; reflexivity.
  - destruct (lo_result _) as [[l d]|e]; cbn [fst snd trace];
      exists []; eexists; (split; [done|]);
      (split; [by rewrite <- !app_assoc|]);
      (split; [|by left]);
      rewrite !console_lines_app, console_lines_progress,
        ?console_lines_console; reflexivity.
Qed.

Lemma console_of_a_run_witness :
  console_lines
    (trace (snd (FL_SongGen_ModelLoader_load_model
                   (sample_collaborators (Raise sample_runtime_error))
                   "songgeneration_base_new" "low" false empty_world)))
  = banner_lines "songgeneration_base_new" "low" sample_info
    ++ ["[FL SongGen] ERROR loading model: CUDA out of memory"].
Proof.
  assert (Hpre : prelude (sample_collaborators (Raise sample_runtime_error))
                   "songgeneration_base_new" "low" empty_world
                 = (Ok "low",
                    snd (prelude (sample_collaborators (Raise sample_runtime_error))
                           "songgeneration_base_new" "low" empty_world)))
    by (vm_compute; reflexivity).
  assert (Hvram : vram_formats_exactly
                    (sample_collaborators (Raise sample_runtime_error)))
    by (intros z Hz; discriminate Hz).
  destruct (console_of_a_run _ _ _ false _ _ _ Hvram Hpre)
    as (info & detection & new & Hinfo & Htrace & Hlines & Hdetect).
  injection Hinfo as <-.
  destruct Hdetect as [[_ ->]|[Hauto _]]; [|discriminate Hauto].
  rewrite Htrace. exact Hlines.
Defined.

(** X13: the dictionary is changed in place, so when a second invocation
    gets the same dictionary from the collaborator (a model kept in its
    cache), the flag written by the first invocation is overwritten:
    whoever holds the first result then reads the flag of the second
    memory mode. *)
Theorem second_load_overwrites_the_flag :
  forall C (model_variant mode1 mode2 : string) (reload1 reload2 : bool)
         w ret w' w'',
    FL_SongGen_ModelLoader_load_model C model_variant mode1 reload1 w
    = (Ok ret, w') ->
    FL_SongGen_ModelLoader_load_model C model_variant mode2 reload2 w'
    = (Ok ret, w'') ->
    exists l resolved1 resolved2 w1 w2 d1 d2,
      ret = [VRef l] /\
      prelude C model_variant mode1 w = (Ok resolved1, w1) /\
      prelude C model_variant mode2 w' = (Ok resolved2, w2) /\
      store w' !! l = Some d1 /\
      d1 !! "ultra_low_mem" = Some (VBool (ultra_low_mem resolved1)) /\
      store w'' !! l = Some d2 /\
      d2 !! "ultra_low_mem" = Some (VBool (ultra_low_mem resolved2)).
Proof.
  intros C variant mode1 mode2 reload1 reload2 w ret w' w'' Hrun1 Hrun2.
  destruct (node_ok_inv _ _ _ _ _ _ _ Hrun1)
    as (resolved1 & w1 & l1 & c1 & Hpre1 & Hres1).
  destruct (node_ok_inv _ _ _ _ _ _ _ Hrun2)
    as (resolved2 & w2 & l2 & c2 & Hpre2 & Hres2).
  rewrite (node_after_prelude _ _ _ _ _ _ _ Hpre1) in Hrun1.
  rewrite (node_after_prelude _ _ _ _ _ _ _ Hpre2) in Hrun2.
  cbv zeta in Hrun1, Hrun2. rewrite Hres1 in Hrun1. rewrite Hres2 in Hrun2.
  injection Hrun1 as <- <-. injection Hrun2 as Hl <-.
  subst l2. cbn [store].
  exists l1, resolved1, resolved2, w1, w2. eexists _, _.
  split; [done|]. split; [done|]. split; [done|].
  split; [apply lookup_insert_eq|]. split; [apply lookup_insert_eq|].
  split; [apply lookup_insert_eq|]. apply lookup_insert_eq.
Qed.

(** Loaded for ["ultra"], then for ["normal"]: the one dictionary ends
    with the flag off. *)
Lemma second_load_overwrites_the_flag_witness :
  let C := sample_collaborators (Ok (5%nat, sample_model_info)) in
  let run1 := FL_SongGen_ModelLoader_load_model C "songgeneration_base_new"
                "ultra" false empty_world in
  let run2 := FL_SongGen_ModelLoader_load_model C "songgeneration_base_new"
                "normal" false (snd run1) in
  exists d2,
    store (snd run2) !! 5%nat = Some d2 /\
    d2 !! "ultra_low_mem" = Some (VBool false).
Proof.
  intros C run1 run2.
  assert (Hrun1 : FL_SongGen_ModelLoader_load_model C "songgeneration_base_new"
                    "ultra" false empty_world = (Ok [VRef 5%nat], snd run1))
    by (vm_compute; reflexivity).
  assert (Hrun2 : FL_SongGen_ModelLoader_load_model C "songgeneration_base_new"
                    "normal" false (snd run1) = (Ok [VRef 5%nat], snd run2))
    by (vm_compute; reflexivity).
  destruct (second_load_overwrites_the_flag _ _ _ _ _ _ _ _ _ _ Hrun1 Hrun2)
    as (l & r1 & r2 & w1 & w2 & d1 & d2 & Hret & _ & Hpre2 & _ & _ & Hd2 & Hflag).
  injection Hret as <-.
  destruct (prelude_ok_inv _ _ _ _ _ _ Hpre2)
    as (_ & _ & _ & [(Hauto & _)|(_ & -> & _)]); [discriminate Hauto|].
  exists d2. split; [exact Hd2|exact Hflag].
Defined.

End MoreLoaderFacts.
